(** * site_scraper.py: a breadth-first site crawler, embedded and verified

    The development follows [src/site_scraper.py] function by function:
    [RateLimiter], [scrape_page], [filter_links], [sanitize_filename],
    [save_page], [process_urls] and [crawl_website].

    Modelling conventions.
    - Python [str] is [string]; Python [int] is [Z]; a Python [set] of
      strings is a [gset string]; the output directory tree is a finite map
      from file paths to file contents ([gmap string string]).
    - Library calls that the program makes outside any [try] block
      ([urlparse], [urljoin], [os.makedirs], [open]/[write]) are taken to
      return normally; the crawl-level theorems are parametric in
      [urlparse] and [urljoin].  Module [Urllib] gives a concrete model of
      the two, following CPython 3.11's [urllib.parse], for the worked
      examples.
    - Library calls inside the [try] block of [scrape_page] may raise; they
      are functions into [Exc].
    - The order in which [ray.wait] hands back finished tasks is not
      determined by the program; it is an explicit schedule (a list of
      indices) that [process_urls] consumes.
    - The wall clock read by the rate limiter is an explicit rational
      number. *)

From Stdlib Require Import ZArith QArith Lqa Lia Ascii String.
From stdpp Require Import base gmap sets list strings.

Local Open Scope Z_scope.

#[local] Set Warnings "-clear-no-such-hyp,-level-tolerance".
#[local] Set Default Proof Using "Type".

(* ===================================================================== *)
(** ** Python string operations used by the program *)
(* ===================================================================== *)

Module Py.

(** [s.split(sep)] for a one-character separator: never returns [[]]. *)
Fixpoint split (sep : ascii) (s : string) : list string :=
  match s with
  | EmptyString => [EmptyString]
  | String c s' =>
      if Ascii.eqb c sep then EmptyString :: split sep s'
      else match split sep s' with
           | h :: t => String c h :: t
           | [] => [String c EmptyString]
           end
  end.

(** [s.split(sep, 1)] when [sep in s]: the text before and after the
    first occurrence; [None] when [sep] does not occur. *)
Fixpoint split_once (sep : ascii) (s : string) : option (string * string) :=
  match s with
  | EmptyString => None
  | String c s' =>
      if Ascii.eqb c sep then Some (EmptyString, s')
      else match split_once sep s' with
           | Some (a, b) => Some (String c a, b)
           | None => None
           end
  end.

(** [sep.join(l)]. *)
Fixpoint join (sep : string) (l : list string) : string :=
  match l with
  | [] => EmptyString
  | [x] => x
  | x :: rest => x +:+ sep +:+ join sep rest
  end.

(** [s.startswith(c)] and [s.endswith(c)] for a one-character [c]. *)
Definition startswith (c : ascii) (s : string) : bool :=
  match s with
  | String c' _ => Ascii.eqb c' c
  | EmptyString => false
  end.

Fixpoint endswith (c : ascii) (s : string) : bool :=
  match s with
  | EmptyString => false
  | String c' EmptyString => Ascii.eqb c' c
  | String _ s' => endswith c s'
  end.

(** Truthiness of a string: [if s:] holds for the non-empty ones. *)
Definition truthy (s : string) : bool :=
  match s with EmptyString => false | String _ _ => true end.

(** Map and filter over the characters of a string. *)
Fixpoint map_chars (f : ascii → ascii) (s : string) : string :=
  match s with
  | EmptyString => EmptyString
  | String c s' => String (f c) (map_chars f s')
  end.

Fixpoint filter_chars (p : ascii → bool) (s : string) : string :=
  match s with
  | EmptyString => EmptyString
  | String c s' => if p c then String c (filter_chars p s') else filter_chars p s'
  end.

Fixpoint all_chars (p : ascii → bool) (s : string) : bool :=
  match s with
  | EmptyString => true
  | String c s' => p c && all_chars p s'
  end.

(** The longest prefix whose characters satisfy [p], and the rest. *)
Fixpoint span (p : ascii → bool) (s : string) : string * string :=
  match s with
  | EmptyString => (EmptyString, EmptyString)
  | String c s' =>
      if p c then let '(a, b) := span p s' in (String c a, b)
      else (EmptyString, s)
  end.

(** [l[:-1]]. *)
Definition init {A} (l : list A) : list A := take (length l - 1)%nat l.

End Py.

(* ===================================================================== *)
(** ** A model of [urllib.parse] (CPython 3.11) and of [posixpath.join] *)
(* ===================================================================== *)

(** The six components of [urllib.parse.ParseResult]. *)
Record ParseResult := mkParseResult {
  scheme : string;
  netloc : string;
  path : string;
  params : string;
  query : string;
  fragment : string
}.

Module Urllib.

Definition uses_relative : list string :=
  [EmptyString; "ftp"; "http"; "gopher"; "nntp"; "imap"; "wais"; "file"; "https";
   "shttp"; "mms"; "prospero"; "rtsp"; "rtspu"; "sftp"; "svn"; "svn+ssh";
   "ws"; "wss"].

Definition uses_netloc : list string :=
  [EmptyString; "ftp"; "http"; "gopher"; "nntp"; "telnet"; "imap"; "wais"; "file";
   "mms"; "https"; "shttp"; "snews"; "prospero"; "rtsp"; "rtspu"; "rsync";
   "svn"; "svn+ssh"; "sftp"; "nfs"; "git"; "git+ssh"; "ws"; "wss"].

Definition uses_params : list string :=
  [EmptyString; "ftp"; "hdl"; "prospero"; "http"; "imap"; "https"; "shttp"; "rtsp";
   "rtspu"; "sip"; "sips"; "mms"; "sftp"; "tel"].

Definition is_upper (c : ascii) : bool :=
  let n := nat_of_ascii c in ((65 <=? n) && (n <=? 90))%nat.
Definition is_lower (c : ascii) : bool :=
  let n := nat_of_ascii c in ((97 <=? n) && (n <=? 122))%nat.
Definition is_digit (c : ascii) : bool :=
  let n := nat_of_ascii c in ((48 <=? n) && (n <=? 57))%nat.
Definition is_alpha (c : ascii) : bool := is_upper c || is_lower c.

(** [scheme_chars]: letters, digits and [+-.]. *)
Definition is_scheme_char (c : ascii) : bool :=
  is_alpha c || is_digit c
  || Ascii.eqb c "+" || Ascii.eqb c "-" || Ascii.eqb c ".".

Definition lower_char (c : ascii) : ascii :=
  if is_upper c then ascii_of_nat (nat_of_ascii c + 32) else c.

(** [_WHATWG_C0_CONTROL_OR_SPACE]: code points 0 to 32. *)
Definition is_c0_or_space (c : ascii) : bool := (nat_of_ascii c <=? 32)%nat.

Fixpoint lstrip_c0 (s : string) : string :=
  match s with
  | EmptyString => EmptyString
  | String c s' => if is_c0_or_space c then lstrip_c0 s' else s
  end.

(** [_UNSAFE_URL_BYTES_TO_REMOVE]: tab, carriage return, line feed. *)
Definition is_unsafe (c : ascii) : bool :=
  let n := nat_of_ascii c in ((n =? 9) || (n =? 13) || (n =? 10))%nat.

Definition is_netloc_delim (c : ascii) : bool :=
  Ascii.eqb c "/" || Ascii.eqb c "?" || Ascii.eqb c "#".

(** [urlsplit(url, scheme)]: the five components, in a [ParseResult]
    whose [params] is empty.  The default [scheme] is always the empty
    string or the scheme of an already parsed URL here, so stripping it
    changes nothing.  The validation of bracketed (IPv6) hosts and the NFKC
    check of non-ASCII hosts, which can only raise, are not modelled. *)
Definition urlsplit (url default_scheme : string) : ParseResult :=
  let url := Py.filter_chars (λ c, negb (is_unsafe c)) (lstrip_c0 url) in
  let '(scheme, url) :=
    match Py.split_once ":" url with
    | Some (String c0 pre, rest) =>
        if is_alpha c0 && Py.all_chars is_scheme_char (String c0 pre)
        then (Py.map_chars lower_char (String c0 pre), rest)
        else (default_scheme, url)
    | _ => (default_scheme, url)
    end in
  let '(netloc, url) :=
    match url with
    | String "/" (String "/" rest) =>
        Py.span (λ c, negb (is_netloc_delim c)) rest
    | _ => (EmptyString, url)
    end in
  let '(url, fragment) :=
    match Py.split_once "#" url with
    | Some (a, b) => (a, b)
    | None => (url, EmptyString)
    end in
  let '(url, query) :=
    match Py.split_once "?" url with
    | Some (a, b) => (a, b)
    | None => (url, EmptyString)
    end in
  mkParseResult scheme netloc url EmptyString query fragment.

(** [_splitparams(url)], called only when [';' in url]: the parameters
    are looked for after the last [/]. *)
Definition splitparams (url : string) : string * string :=
  let segs := Py.split "/" url in
  match Py.split_once ";" (List.last segs EmptyString) with
  | Some (a, b) => (Py.join "/" (Py.init segs ++ [a]), b)
  | None => (url, EmptyString)
  end.

Definition contains (c : ascii) (s : string) : bool :=
  bool_decide (is_Some (Py.split_once c s)).

(** [urlparse(url, scheme)]. *)
Definition urlparse_with (url default_scheme : string) : ParseResult :=
  let r := urlsplit url default_scheme in
  if bool_decide (scheme r ∈ uses_params) && contains ";" (path r) then
    let '(p, prm) := splitparams (path r) in
    mkParseResult (scheme r) (netloc r) p prm (query r) (fragment r)
  else r.

Definition urlparse (url : string) : ParseResult := urlparse_with url EmptyString.

(** [urlunsplit] and [urlunparse]. *)
Definition urlunsplit (scheme netloc url query fragment : string) : string :=
  let url :=
    if Py.truthy netloc
       || (Py.truthy scheme && bool_decide (scheme ∈ uses_netloc)
           && negb (match url with String "/" (String "/" _) => true | _ => false end))
    then "//" +:+ netloc +:+
         (if Py.truthy url && negb (Py.startswith "/" url) then "/" +:+ url else url)
    else url in
  let url := if Py.truthy scheme then scheme +:+ ":" +:+ url else url in
  let url := if Py.truthy query then url +:+ "?" +:+ query else url in
  if Py.truthy fragment then url +:+ "#" +:+ fragment else url.

Definition urlunparse (r : ParseResult) : string :=
  let url := if Py.truthy (params r) then path r +:+ ";" +:+ params r else path r in
  urlunsplit (scheme r) (netloc r) url (query r) (fragment r).

(** The loop of [urljoin] that resolves [.] and [..] segments. *)
Fixpoint resolve (segments resolved_path : list string) : list string :=
  match segments with
  | [] => resolved_path
  | seg :: rest =>
      if String.eqb seg ".." then resolve rest (Py.init resolved_path)
      else if String.eqb seg "." then resolve rest resolved_path
      else resolve rest (resolved_path ++ [seg])
  end.

(** [segments[1:-1] = filter(None, segments[1:-1])]. *)
Definition drop_empty_middle (segments : list string) : list string :=
  match segments with
  | s0 :: (_ :: _) as rest =>
      s0 :: List.filter Py.truthy (Py.init rest) ++ [List.last rest EmptyString]
  | _ => segments
  end.

(** [urljoin(base, url)]. *)
Definition urljoin (base url : string) : string :=
  if negb (Py.truthy base) then url
  else if negb (Py.truthy url) then base
  else
    let b := urlparse_with base EmptyString in
    let u := urlparse_with url (scheme b) in
    if negb (String.eqb (scheme u) (scheme b))
       || negb (bool_decide (scheme u ∈ uses_relative))
    then url
    else if bool_decide (scheme u ∈ uses_netloc) && Py.truthy (netloc u)
    then urlunparse u
    else
      let netloc' :=
        if bool_decide (scheme u ∈ uses_netloc) then netloc b else netloc u in
      if negb (Py.truthy (path u)) && negb (Py.truthy (params u)) then
        urlunparse
          (mkParseResult (scheme u) netloc' (path b) (params b)
             (if Py.truthy (query u) then query u else query b) (fragment u))
      else
        let base_parts := Py.split "/" (path b) in
        let base_parts :=
          if Py.truthy (List.last base_parts EmptyString)
          then Py.init base_parts else base_parts in
        let segments :=
          if Py.startswith "/" (path u) then Py.split "/" (path u)
          else drop_empty_middle (base_parts ++ Py.split "/" (path u)) in
        let resolved_path := resolve segments [] in
        let last_seg := List.last segments EmptyString in
        let resolved_path :=
          if String.eqb last_seg "." || String.eqb last_seg ".."
          then resolved_path ++ [EmptyString] else resolved_path in
        let joined := Py.join "/" resolved_path in
        urlunparse
          (mkParseResult (scheme u) netloc'
             (if Py.truthy joined then joined else "/")
             (params u) (query u) (fragment u)).

End Urllib.

(** [posixpath.join(a, *p)]: a component that starts with [/] discards
    what precedes it; [/] is inserted unless the path so far is empty or
    already ends with it. *)
Module Posixpath.

Definition join (a : string) (p : list string) : string :=
  fold_left
    (λ path b,
       if Py.startswith "/" b then b
       else if negb (Py.truthy path) || Py.endswith "/" path then path +:+ b
       else path +:+ "/" +:+ b)
    p a.

End Posixpath.

(* ===================================================================== *)
(** ** Data model *)
(* ===================================================================== *)

(** The dictionary returned by [scrape_page]. *)
Record PageResult := mkPageResult {
  page_url : string;
  page_markdown : string;
  page_links : list string
}.

(** An instance of Python's [Exception], the class that the handler of
    [scrape_page] catches; [message] is what [str(e)] prints. *)
Record Exception := mkException { message : string }.

Definition Exc (A : Type) : Type := (Exception + A)%type.

Definition ret {A} (a : A) : Exc A := inr a.
Definition raise {A} (e : Exception) : Exc A := inl e.
Definition bind {A B} (m : Exc A) (k : A → Exc B) : Exc B :=
  match m with
  | inl e => inl e
  | inr a => k a
  end.

Notation "'do' x <~ m ; k" := (bind m (λ x, k))
  (at level 10, x name, m at level 100, k at level 200,
   format "'[v' 'do'  x  <~  m ; '/' k ']'").

(** What [requests.get] returns. *)
Record Response := mkResponse { status_code : Z; text : string }.

(** A handle on the [RateLimiter] actor, as a worker sees it:
    [ray.get(rate_limiter.acquire.remote())] in the [n]-th worker of the run
    returns or raises. *)
Definition LimiterHandle : Type := nat → Exc unit.

(** The output directory tree: file path to file content. *)
Abbreviation Files := (gmap string string).

(** A pending [scrape_page.remote(url, rate_limiter)] call: the number of
    the worker in the run, and its URL. *)
Definition Task : Type := nat * string.

(** What a run does that can be observed from outside. *)
Inductive Event :=
  | EvLevel (depth : Z) (pages : nat)       (* the line printed when a level starts *)
  | EvLaunch (n : nat) (url : string)       (* scrape_page.remote(url, rate_limiter) *)
  | EvCollect (n : nat) (url : string)      (* ray.get of the result of worker n *)
  | EvVisit (url : string)                  (* visited.add(url) *)
  | EvSave (url file_path content : string) (* the file is written *).

Definition launches (tr : list Event) : list string :=
  omap (λ e, match e with EvLaunch _ u => Some u | _ => None end) tr.
Definition collects (tr : list Event) : list string :=
  omap (λ e, match e with EvCollect _ u => Some u | _ => None end) tr.
Definition visits (tr : list Event) : list string :=
  omap (λ e, match e with EvVisit u => Some u | _ => None end) tr.
Definition saves (tr : list Event) : list (string * string * string) :=
  omap (λ e, match e with EvSave u p c => Some (u, p, c) | _ => None end) tr.

Definition newline : string := String (ascii_of_nat 10) EmptyString.

(* ===================================================================== *)
(** ** The program *)
(* ===================================================================== *)

(** [sanitize_filename]: every backslash, slash, star, question mark, colon,
    double quote, angle bracket and vertical bar becomes an underscore. *)
Definition unsafe_char (c : ascii) : bool :=
  bool_decide (nat_of_ascii c ∈ [92; 47; 42; 63; 58; 34; 60; 62; 124]%nat).

Definition sanitize_filename (name : string) : string :=
  Py.map_chars (λ c, if unsafe_char c then "_"%char else c) name.

Module SiteScraper.

Section Program.

(** [urllib.parse.urlparse] and [urllib.parse.urljoin]. *)
Context (urlparse : string → ParseResult) (urljoin : string → string → string).

(** The collaborators of the worker: [requests.get(url, timeout=10)] as
    answered to the [n]-th worker of the run, [response.raise_for_status()],
    [markdownify(text, heading_style="ATX")], and the [href]s of
    [BeautifulSoup(text, 'html.parser').find_all('a', href=True)]. *)
Context (requests_get : nat → string → Exc Response)
        (raise_for_status : Response → Exc unit)
        (md : string → Exc string)
        (find_all_href : string → Exc (list string)).

(** *** [scrape_page] *)

Definition scrape_body (n : nat) (url : string)
    (rate_limiter : option LimiterHandle) : Exc PageResult :=
  do _ <~ match rate_limiter with
          | Some acquire => acquire n
          | None => ret ()
          end;
  do response <~ requests_get n url;
  do _ <~ raise_for_status response;
  do markdown_content <~ md (text response);
  do links <~ find_all_href (text response);
  ret (mkPageResult url markdown_content links).

(** The result, and the lines printed. *)
Definition scrape_page (n : nat) (url : string)
    (rate_limiter : option LimiterHandle) : PageResult * list string :=
  match scrape_body n url rate_limiter with
  | inr result => (result, [])
  | inl e =>
      (mkPageResult url EmptyString [],
       ["Error scraping " +:+ url +:+ ": " +:+ message e])
  end.

(** *** [filter_links] *)

Definition filter_links (links : list string) (base_url : string) : list string :=
  let base_domain := netloc (urlparse base_url) in
  fold_left
    (λ filtered link,
       let absolute := urljoin base_url link in
       if decide (netloc (urlparse absolute) = base_domain)
       then filtered ++ [absolute] else filtered)
    links [].

(** *** [save_page] *)

Definition save_page (url markdown_content output_dir : string)
    (fs : Files) : Files * list Event :=
  let parsed := urlparse url in
  let host := sanitize_filename (netloc parsed) in
  let path := path parsed in
  let fragment := fragment parsed in
  let path_parts :=
    sanitize_filename <$> List.filter Py.truthy (Py.split "/" path) in
  let '(final_endpoint, dir_parts) :=
    match path_parts with
    | _ :: _ => (List.last path_parts EmptyString, Py.init path_parts)
    | [] => (host, [])
    end in
  let directory := Posixpath.join output_dir (host :: dir_parts) in
  let filename :=
    if Py.truthy fragment
    then final_endpoint +:+ "_" +:+ sanitize_filename fragment +:+ ".md"
    else final_endpoint +:+ ".md" in
  let file_path := Posixpath.join directory [filename] in
  let content := "# " +:+ url +:+ newline +:+ newline +:+ markdown_content in
  (<[file_path := content]> fs, [EvSave url file_path content]).

(** *** [process_urls] *)

Section Dispatcher.

Context (rate_limiter : option LimiterHandle) (max_concurrency : Z).

(** [ray.get] of one task. *)
Definition ray_get (t : Task) : PageResult :=
  (scrape_page t.1 t.2 rate_limiter).1.

(** [ray.wait(tasks, num_returns=1)] on a non-empty list: the task that
    is handed back as done is the one the schedule points at; the others
    keep their order. *)
Definition ray_wait (tasks : list Task) (pick : nat) : list Task * list Task :=
  let i := (pick mod length tasks)%nat in
  (take 1 (drop i tasks), delete i tasks).

Definition next_pick (sched : list nat) : nat * list nat :=
  match sched with
  | [] => (0%nat, [])
  | i :: sched' => (i, sched')
  end.

Record Pool := mkPool {
  pool_tasks : list Task;
  pool_results : list PageResult;
  pool_sched : list nat;
  pool_trace : list Event
}.

Definition collect_events (done : list Task) : list Event :=
  (λ t : Task, EvCollect t.1 t.2) <$> done.

(** The [for url in urls] loop; [n] numbers the workers of the run. *)
Fixpoint launch_loop (urls : list string) (n : nat) (p : Pool) : Pool :=
  match urls with
  | [] => p
  | url :: urls' =>
      let tasks := pool_tasks p ++ [(n, url)] in
      let tr := pool_trace p ++ [EvLaunch n url] in
      if decide (max_concurrency ≤ Z.of_nat (length tasks)) then
        let '(pick, sched) := next_pick (pool_sched p) in
        let '(done, tasks) := ray_wait tasks pick in
        launch_loop urls' (S n)
          (mkPool tasks (pool_results p ++ (ray_get <$> done)) sched
             (tr ++ collect_events done))
      else
        launch_loop urls' (S n)
          (mkPool tasks (pool_results p) (pool_sched p) tr)
  end.

(** The results, what is left of the schedule, and the events. *)
Definition process_urls (urls : list string) (n : nat) (sched : list nat)
    : list PageResult * list nat * list Event :=
  let p := launch_loop urls n (mkPool [] [] sched []) in
  (pool_results p ++ (ray_get <$> pool_tasks p),
   pool_sched p,
   pool_trace p ++ collect_events (pool_tasks p)).

End Dispatcher.

(** *** [crawl_website] *)

Section Crawl.

Context (base_url output_dir : string) (max_depth : Z)
        (rate_limiter : option LimiterHandle) (max_concurrency : Z).

(** The state of the [while] loop, with the output tree, the number of
    workers launched so far, the schedule left and the events so far. *)
Record Crawl := mkCrawl {
  visited : gset string;
  current_level : list string;
  depth : Z;
  files : Files;
  launched : nat;
  schedule : list nat;
  trace : list Event
}.

(** The state of the [for result in results] loop. *)
Record Level := mkLevel {
  lv_visited : gset string;
  next_level : list string;
  lv_files : Files;
  lv_trace : list Event
}.

Definition add_link (visited : gset string) (current_level : list string)
    (next_level : list string) (link : string) : list string :=
  if decide ((link ∉ visited) ∧ (link ∉ current_level) ∧ (link ∉ next_level))
  then next_level ++ [link] else next_level.

Definition process_result (current_level : list string) (lv : Level)
    (result : PageResult) : Level :=
  let url := page_url result in
  if decide (url ∈ lv_visited lv) then lv
  else
    let visited := {[url]} ∪ lv_visited lv in
    let '(fs, saved) :=
      save_page url (page_markdown result) output_dir (lv_files lv) in
    let new_links := filter_links (page_links result) base_url in
    mkLevel visited
      (fold_left (add_link visited current_level) new_links (next_level lv))
      fs
      (lv_trace lv ++ [EvVisit url] ++ saved).

Definition urls_to_scrape (st : Crawl) : list string :=
  filter (λ url, url ∉ visited st) (current_level st).

(** The results that the dispatcher hands to the level that starts in
    state [st]. *)
Definition level_results (st : Crawl) : list PageResult :=
  (process_urls rate_limiter max_concurrency
     (urls_to_scrape st) (launched st) (schedule st)).1.1.

(** The events of the dispatcher in that level. *)
Definition level_dispatched (st : Crawl) : list Event :=
  (process_urls rate_limiter max_concurrency
     (urls_to_scrape st) (launched st) (schedule st)).2.

(** One iteration of the [while] loop. *)
Definition level_step (st : Crawl) : Crawl :=
  let to_scrape := urls_to_scrape st in
  let '(results, sched, dispatched) :=
    process_urls rate_limiter max_concurrency
      to_scrape (launched st) (schedule st) in
  let lv :=
    fold_left (process_result (current_level st)) results
      (mkLevel (visited st) [] (files st)
         (trace st ++ [EvLevel (depth st) (length (current_level st))]
            ++ dispatched)) in
  mkCrawl (lv_visited lv) (next_level lv) (depth st + 1) (lv_files lv)
    (launched st + length to_scrape)%nat sched (lv_trace lv).

(** [current_level and depth <= max_depth]. *)
Definition continues (st : Crawl) : bool :=
  bool_decide (current_level st ≠ []) && bool_decide (depth st ≤ max_depth).

(** The [while] loop, with a bound on the number of iterations. *)
Fixpoint crawl_loop (fuel : nat) (st : Crawl) : option Crawl :=
  if continues st then
    match fuel with
    | O => None
    | S fuel' => crawl_loop fuel' (level_step st)
    end
  else Some st.

Definition crawl_init (fs : Files) (sched : list nat) : Crawl :=
  mkCrawl ∅ [base_url] 0 fs 0 sched [].

(** [crawl_website], started on output tree [fs]: the loop cannot run
    more than [max_depth + 1] times. *)
Definition crawl_website (fs : Files) (sched : list nat) : option Crawl :=
  crawl_loop (Z.to_nat (max_depth + 1)) (crawl_init fs sched).

(** The state after [k] iterations. *)
Definition run (fs : Files) (sched : list nat) (k : nat) : Crawl :=
  Nat.iter k level_step (crawl_init fs sched).

End Crawl.

End Program.

End SiteScraper.

Import SiteScraper.

(* ===================================================================== *)
(** ** [RateLimiter] *)
(* ===================================================================== *)

(** The actor runs one [acquire] at a time, so a sequence of calls, from
    whatever workers, is a list.  Each call is given the two things that the
    clock decides: [now], what its first [time.time()] returns, and [lag],
    how much later than asked for the last [time.time()] is read (the part
    of [time.sleep] beyond its argument, and the time the statements take). *)
Module RateLimiter.

Record t := mk { delay : Q; last_request : Q }.

(** [__init__]. *)
Definition init (delay : Q) : t := mk delay 0.

(** [acquire]: the new state, and the argument of [time.sleep] when it is
    called. *)
Definition acquire (self : t) (now lag : Q) : t * option Q :=
  if Qeq_bool (last_request self) 0 then
    (mk (delay self) now, None)
  else
    let elapsed := (now - last_request self)%Q in
    if negb (Qle_bool (delay self) elapsed) then
      (mk (delay self) (now + (delay self - elapsed) + lag)%Q,
       Some (delay self - elapsed)%Q)
    else
      (mk (delay self) (now + lag)%Q, None).

(** The calls in the order the actor serves them: for each, the time at
    which it is granted (the time stamp it leaves in [last_request]) and
    the sleep it asked for. *)
Fixpoint serve (self : t) (calls : list (Q * Q)) : list (Q * option Q) :=
  match calls with
  | [] => []
  | (now, lag) :: rest =>
      let '(self', slept) := acquire self now lag in
      (last_request self', slept) :: serve self' rest
  end.

(** What is assumed of the clock: [time.time()] is positive (seconds
    since 1970) and does not go back, and no lag is negative. *)
Fixpoint clock_ok (self : t) (calls : list (Q * Q)) : Prop :=
  match calls with
  | [] => True
  | (now, lag) :: rest =>
      (last_request self <= now)%Q ∧ (0 < now)%Q ∧ (0 <= lag)%Q
      ∧ clock_ok (acquire self now lag).1 rest
  end.

End RateLimiter.

(* ===================================================================== *)
(** ** The persisted file layout, in the words of the specification *)
(* ===================================================================== *)

(** For host [H], path segments [P] and fragment [F]: the directory is
    [outputDir/H/P[0..len-2]], the base file name is [P[last]], or [H] when
    [P] is empty, and the file is [base.md] or [base_F.md], host, segments
    and fragment sanitised. *)
Definition spec_file_path (outputDir H : string) (P : list string) (F : string)
    : string :=
  let H' := sanitize_filename H in
  let P' := sanitize_filename <$> P in
  let base := List.last P' H' in
  let filename :=
    if Py.truthy F then base +:+ "_" +:+ sanitize_filename F +:+ ".md"
    else base +:+ ".md" in
  Py.join "/" (outputDir :: H' :: Py.init P' ++ [filename]).

Definition spec_file_content (url markdown : string) : string :=
  "# " +:+ url +:+ newline +:+ newline +:+ markdown.

(** The non-empty components of a URL path. *)
Definition path_segments (path : string) : list string :=
  List.filter Py.truthy (Py.split "/" path).

(* ===================================================================== *)
(** ** Notions used in the statements *)
(* ===================================================================== *)

Module Notions.

Section Notions.

Context (urlparse : string → ParseResult).
Context (requests_get : nat → string → Exc Response)
        (raise_for_status : Response → Exc unit)
        (md : string → Exc string)
        (find_all_href : string → Exc (list string)).

Definition error_line (url : string) (e : Exception) : string :=
  "Error scraping " +:+ url +:+ ": " +:+ message e.

(** The step of the [try] block at which exception [e] is raised. *)
Inductive fails_with (n : nat) (url : string) (rate_limiter : option LimiterHandle)
    (e : Exception) : Prop :=
  | fails_acquire acquire :
      rate_limiter = Some acquire → acquire n = inl e →
      fails_with n url rate_limiter e
  | fails_get :
      (∀ acquire, rate_limiter = Some acquire → acquire n = inr ()) →
      requests_get n url = inl e →
      fails_with n url rate_limiter e
  | fails_status response :
      (∀ acquire, rate_limiter = Some acquire → acquire n = inr ()) →
      requests_get n url = inr response →
      raise_for_status response = inl e →
      fails_with n url rate_limiter e
  | fails_convert response :
      (∀ acquire, rate_limiter = Some acquire → acquire n = inr ()) →
      requests_get n url = inr response →
      raise_for_status response = inr () →
      md (text response) = inl e →
      fails_with n url rate_limiter e
  | fails_extract response markdown_content :
      (∀ acquire, rate_limiter = Some acquire → acquire n = inr ()) →
      requests_get n url = inr response →
      raise_for_status response = inr () →
      md (text response) = inr markdown_content →
      find_all_href (text response) = inl e →
      fails_with n url rate_limiter e.

(** The test of [filter_links]. *)
Definition same_domain (base_url absolute : string) : Prop :=
  netloc (urlparse absolute) = netloc (urlparse base_url).

#[global] Instance same_domain_dec base_url absolute :
  Decision (same_domain base_url absolute).
Proof. unfold same_domain. apply _. Defined.

(** The path and the content that [save_page] computes. *)
Definition saved_path (url output_dir : string) : string :=
  let parsed := urlparse url in
  let H' := sanitize_filename (netloc parsed) in
  let P' := sanitize_filename <$> path_segments (path parsed) in
  let base := List.last P' H' in
  let filename :=
    if Py.truthy (fragment parsed)
    then base +:+ "_" +:+ sanitize_filename (fragment parsed) +:+ ".md"
    else base +:+ ".md" in
  Posixpath.join (Posixpath.join output_dir (H' :: Py.init P')) [filename].

(** What the crawl does with one result that is not visited yet: the
    URL is marked, then its page is written. *)
Definition result_events (output_dir : string) (r : PageResult) : list Event :=
  [EvVisit (page_url r);
   EvSave (page_url r) (saved_path (page_url r) output_dir)
     (spec_file_content (page_url r) (page_markdown r))].

(** The output tree after a list of writes [(url, path, content)]. *)
Definition write_all (writes : list (string * string * string)) (fs : Files)
    : Files :=
  fold_left (λ fs w, <[w.1.2 := w.2]> fs) writes fs.

(** Orders of events: a URL is visited only after it was launched, and a
    page is saved right after its URL was marked as visited. *)
Definition visit_after_launch (tr : list Event) : Prop :=
  ∀ pre u suf, tr = pre ++ EvVisit u :: suf → u ∈ launches pre.

Definition save_after_visit (tr : list Event) : Prop :=
  ∀ pre u p c suf, tr = pre ++ EvSave u p c :: suf →
    ∃ pre', pre = pre' ++ [EvVisit u].

(** What every iteration of the [while] loop maintains. *)
Definition crawl_inv (fs0 : Files) (st : Crawl) : Prop :=
  NoDup (current_level st)
  ∧ (∀ u, u ∈ current_level st → u ∉ visited st)
  ∧ visited st = list_to_set (visits (trace st))
  ∧ NoDup (visits (trace st))
  ∧ launches (trace st) ≡ₚ visits (trace st)
  ∧ (saves (trace st)).*1.*1 = visits (trace st)
  ∧ visit_after_launch (trace st)
  ∧ save_after_visit (trace st)
  ∧ files st = write_all (saves (trace st)) fs0.

(** Unchanged remote content: what [requests.get] answers depends on the
    URL only; and a rate limiter that never fails its callers. *)
Definition deterministic_fetch : Prop :=
  ∀ n m url, requests_get n url = requests_get m url.

Definition reliable (rate_limiter : option LimiterHandle) : Prop :=
  ∀ acquire n, rate_limiter = Some acquire → acquire n = inr ().

(** The page of a URL, when the content is unchanged. *)
Definition page_of (url : string) : PageResult :=
  (scrape_page requests_get raise_for_status md find_all_href 0 url None).1.

(** Two states of two runs that differ only by the order in which the
    results of each level arrived. *)
Definition same_up_to_order (stA stB : Crawl) : Prop :=
  visited stA = visited stB
  ∧ current_level stA ≡ₚ current_level stB
  ∧ depth stA = depth stB
  ∧ saves (trace stA) ≡ₚ saves (trace stB).

(** What is written for a result. *)
Definition write_of (output_dir : string) (r : PageResult)
    : string * string * string :=
  (page_url r, saved_path (page_url r) output_dir,
   spec_file_content (page_url r) (page_markdown r)).

End Notions.

End Notions.

Import Notions.

(** The workers that [process_urls] launches for [urls], numbered from
    [n]. *)
Fixpoint tasks_of (n : nat) (urls : list string) : list Task :=
  match urls with
  | [] => []
  | url :: urls' => (n, url) :: tasks_of (S n) urls'
  end.

(** The number of workers launched and not yet collected at the end of a
    trace, and the traces along which it never exceeds [N]. *)
Definition outstanding (tr : list Event) : Z :=
  Z.of_nat (length (launches tr)) - Z.of_nat (length (collects tr)).

Definition bounded (N : Z) (tr : list Event) : Prop :=
  ∀ pre suf, tr = pre ++ suf → outstanding pre ≤ N.

(* ===================================================================== *)
(** ** A small site, for the worked examples *)
(* ===================================================================== *)

(** The text of a page of the example site is the list of its [href]s,
    separated by spaces; rendering to Markdown is the identity. *)
Module Example.

Definition seed : string := "https://ex.com/".

Definition pages (url : string) : option string :=
  if String.eqb url "https://ex.com/" then
    Some "/a?x=1 /a?x=2 docs/ https://other.org/z"
  else if String.eqb url "https://ex.com/a?x=1" then Some "first"
  else if String.eqb url "https://ex.com/a?x=2" then Some "second"
  else if String.eqb url "https://ex.com/docs/" then Some "guide"
  else None.

Definition requests_get (n : nat) (url : string) : Exc Response :=
  match pages url with
  | Some text => ret (mkResponse 200 text)
  | None => raise (mkException "connection refused")
  end.

Definition raise_for_status (r : Response) : Exc unit :=
  if decide (400 ≤ status_code r < 600)
  then raise (mkException "HTTP error") else ret ().

Definition md (text : string) : Exc string := ret text.

Definition find_all_href (text : string) : Exc (list string) :=
  ret (List.filter Py.truthy (Py.split " " text)).

Definition crawl (max_depth max_concurrency : Z) (sched : list nat)
    : option Crawl :=
  crawl_website Urllib.urlparse Urllib.urljoin
    requests_get raise_for_status md find_all_href
    seed "out" max_depth None max_concurrency ∅ sched.

End Example.

(* ===================================================================== *)
(** ** [main], and more notions for the statements *)
(* ===================================================================== *)

(** The arguments as [argparse] hands them to [main]. *)
Record Args := mkArgs {
  arg_site : string;
  arg_output_dir : string;
  arg_max_depth : Z;
  arg_rate_limit : Q;
  arg_max_concurrency : Z
}.

Module Driver.

Section Main.

Context (urlparse : string → ParseResult) (urljoin : string → string → string).
Context (requests_get : nat → string → Exc Response)
        (raise_for_status : Response → Exc unit)
        (md : string → Exc string)
        (find_all_href : string → Exc (list string)).

(** [RateLimiter.remote(delay)], as the workers see the actor it makes. *)
Context (RateLimiter_remote : Q → LimiterHandle).

(** [main], after [parser.parse_args()]: the output directory is made (the
    output tree keeps files only), a rate limiter is made when
    [args.rate_limit > 0], and the site is crawled. *)
Definition main (args : Args) (fs : Files) (sched : list nat) : option Crawl :=
  let rate_limiter :=
    if negb (Qle_bool (arg_rate_limit args) 0)
    then Some (RateLimiter_remote (arg_rate_limit args))
    else None in
  crawl_website urlparse urljoin requests_get raise_for_status md find_all_href
    (arg_site args) (arg_output_dir args) (arg_max_depth args)
    rate_limiter (arg_max_concurrency args) fs sched.

End Main.

End Driver.

Import Driver.

(** A name that [sanitize_filename] leaves as it is. *)
Definition clean_name (s : string) : bool :=
  Py.all_chars (λ c, negb (unsafe_char c)) s.

(** The workers launched and collected along a trace, with their numbers. *)
Definition launched_tasks (tr : list Event) : list Task :=
  omap (λ e, match e with EvLaunch n u => Some (n, u) | _ => None end) tr.
Definition collected_tasks (tr : list Event) : list Task :=
  omap (λ e, match e with EvCollect n u => Some (n, u) | _ => None end) tr.

(** The file paths written along a trace. *)
Definition written_paths (tr : list Event) : list string :=
  (saves tr).*1.*2.

(** The content of the file of a page whose fetch failed. *)
Definition header_only (url : string) : string :=
  "# " +:+ url +:+ newline +:+ newline.

(** A worker is collected only after it was launched. *)
Definition collect_after_launch (tr : list Event) : Prop :=
  ∀ pre n u suf, tr = pre ++ EvCollect n u :: suf → (n, u) ∈ launched_tasks pre.

Definition launch_events (tasks : list Task) : list Event :=
  (λ t : Task, EvLaunch t.1 t.2) <$> tasks.

(** One worker at a time: launched, then collected. *)
Definition one_by_one (tasks : list Task) : list Event :=
  tasks ≫= λ t, [EvLaunch t.1 t.2; EvCollect t.1 t.2].

(** Calls that never come early: each arrives on a fresh limiter, or at
    least [delay] after the stamp of the grant before. *)
Fixpoint unhurried (self : RateLimiter.t) (calls : list (Q * Q)) : Prop :=
  match calls with
  | [] => True
  | (now, lag) :: rest =>
      (RateLimiter.last_request self == 0
       ∨ RateLimiter.last_request self + RateLimiter.delay self <= now)%Q
      ∧ unhurried (RateLimiter.acquire self now lag).1 rest
  end.

Section Frontiers.

Context (urlparse : string → ParseResult) (urljoin : string → string → string).
Context (requests_get : nat → string → Exc Response)
        (raise_for_status : Response → Exc unit)
        (md : string → Exc string)
        (find_all_href : string → Exc (list string)).
Context (base_url output_dir : string)
        (rate_limiter : option LimiterHandle) (max_concurrency : Z).

(** The frontiers of the first [k] levels of a run, one after the other. *)
Definition frontiers (fs : Files) (sched : list nat) (k : nat) : list string :=
  seq 0 k ≫= λ j,
    current_level
      (run urlparse urljoin requests_get raise_for_status md find_all_href
         base_url output_dir rate_limiter max_concurrency fs sched j).

End Frontiers.

(* ===================================================================== *)
(** ** Strings and paths *)
(* ===================================================================== *)

Section StringFacts.

Lemma append_cons (c : ascii) (a b : string) :
  String c a +:+ b = String c (a +:+ b).
Proof. reflexivity. Qed.

Lemma append_assoc (a b c : string) : (a +:+ b) +:+ c = a +:+ (b +:+ c).
Proof.
  induction a as [|x a IH]; [done|]. by rewrite !append_cons, IH.
Qed.

Lemma truthy_append_r (a b : string) :
  Py.truthy b = true → Py.truthy (a +:+ b) = true.
Proof. by destruct a, b. Qed.

Lemma endswith_append (c : ascii) (a b : string) :
  Py.truthy b = true → Py.endswith c (a +:+ b) = Py.endswith c b.
Proof.
  intros Hb. induction a as [|x a IH]; [done|].
  rewrite append_cons. simpl. rewrite IH.
  destruct (a +:+ b) eqn:E; [|done].
  by destruct a, b.
Qed.

(** A sanitised name has no slash left, and is empty only if the name is. *)
Lemma sanitize_truthy (s : string) :
  Py.truthy (sanitize_filename s) = Py.truthy s.
Proof. by destruct s. Qed.

Lemma sanitize_startswith (s : string) :
  Py.startswith "/" (sanitize_filename s) = false.
Proof.
  destruct s as [|c s]; simpl; [done|].
  destruct (unsafe_char c) eqn:E; [done|].
  apply Ascii.eqb_neq. intros ->. by vm_compute in E.
Qed.

Lemma sanitize_endswith (s : string) :
  Py.endswith "/" (sanitize_filename s) = false.
Proof.
  unfold sanitize_filename.
  induction s as [|c s IH]; simpl; [done|].
  destruct (Py.map_chars _ s) eqn:Es; [|done].
  destruct (unsafe_char c) eqn:E; [done|].
  apply Ascii.eqb_neq. intros ->. by vm_compute in E.
Qed.

Lemma sanitize_get (s : string) (i : nat) :
  String.get i (sanitize_filename s)
  = (λ c, if unsafe_char c then "_"%char else c) <$> String.get i s.
Proof.
  unfold sanitize_filename.
  revert i. induction s as [|c s IH]; intros i; simpl; [done|].
  destruct i; [done | apply IH].
Qed.

(** The nine characters that [sanitize_filename] replaces. *)
Lemma unsafe_char_spec (c : ascii) :
  unsafe_char c = true ↔
  c ∈ ["\"; "/"; "*"; "?"; ":"; ascii_of_nat 34; "<"; ">"; "|"]%char.
Proof.
  unfold unsafe_char. rewrite bool_decide_eq_true.
  rewrite !elem_of_cons, !elem_of_nil.
  split.
  - intros H. rewrite <- (ascii_nat_embedding c).
    repeat (destruct H as [-> | H]; [vm_compute; tauto|]).
    done.
  - intros H.
    repeat (destruct H as [-> | H]; [vm_compute; tauto|]).
    done.
Qed.

End StringFacts.

Section PathFacts.

Definition plain_component (s : string) : Prop :=
  Py.truthy s = true ∧ Py.startswith "/" s = false ∧ Py.endswith "/" s = false.

Lemma join_cons_cons (x y : string) (l : list string) :
  Py.join "/" (x :: y :: l) = x +:+ "/" +:+ Py.join "/" (y :: l).
Proof. reflexivity. Qed.

Lemma join_merge_head (a b : string) (l : list string) :
  Py.join "/" ((a +:+ "/" +:+ b) :: l) = a +:+ "/" +:+ Py.join "/" (b :: l).
Proof.
  destruct l as [|c l]; [done|].
  by rewrite !join_cons_cons, !append_assoc.
Qed.

(** When neither the path so far nor a component brings a slash of its
    own, [posixpath.join] puts exactly one between any two. *)
Lemma posix_join_plain (a : string) (p : list string) :
  Py.truthy a = true → Py.endswith "/" a = false →
  Forall plain_component p →
  Posixpath.join a p = Py.join "/" (a :: p).
Proof.
  intros Ha Hend Hp. revert a Ha Hend.
  induction Hp as [|b p [Hb1 [Hb2 Hb3]] _ IH]; intros a Ha Hend; [done|].
  unfold Posixpath.join. simpl fold_left.
  rewrite Hb2, Ha, Hend. simpl negb. simpl orb. cbv iota.
  change (fold_left _ p ?x) with (Posixpath.join x p).
  rewrite IH.
  - apply join_merge_head.
  - apply truthy_append_r. by apply truthy_append_r.
  - rewrite endswith_append by (by apply truthy_append_r).
    by rewrite endswith_append.
Qed.

Lemma posix_join_app (a : string) (p q : list string) :
  Posixpath.join (Posixpath.join a p) q = Posixpath.join a (p ++ q).
Proof. unfold Posixpath.join. by rewrite fold_left_app. Qed.

Lemma sanitize_plain (s : string) :
  Py.truthy s = true → plain_component (sanitize_filename s).
Proof.
  intros Hs. split_and!.
  - by rewrite sanitize_truthy.
  - apply sanitize_startswith.
  - apply sanitize_endswith.
Qed.

Lemma Forall_init {A} (P : A → Prop) (l : list A) :
  Forall P l → Forall P (Py.init l).
Proof. apply Forall_take. Qed.

Lemma sanitized_segments_plain (path : string) :
  Forall plain_component (sanitize_filename <$> path_segments path).
Proof.
  apply Forall_fmap, Forall_forall. intros s Hs.
  apply sanitize_plain.
  apply list_elem_of_In, filter_In in Hs. tauto.
Qed.

Lemma plain_append (base tail : string) :
  plain_component base → Py.truthy tail = true →
  Py.endswith "/" tail = false → plain_component (base +:+ tail).
Proof.
  intros (Hb1 & Hb2 & Hb3) Ht1 Ht2. split_and!.
  - by apply truthy_append_r.
  - destruct base; [done | by rewrite append_cons].
  - by rewrite endswith_append.
Qed.

Lemma last_plain (P : list string) (H : string) :
  Forall plain_component P → plain_component H →
  plain_component (List.last P H).
Proof.
  intros HP HH. induction HP as [|x P Hx HP IH]; [done|].
  destruct P; [done | apply IH].
Qed.

End PathFacts.

(* ===================================================================== *)
(** ** The worker, the link filter and the saver *)
(* ===================================================================== *)

Section WorkerFacts.

Context (urlparse : string → ParseResult) (urljoin : string → string → string).
Context (requests_get : nat → string → Exc Response)
        (raise_for_status : Response → Exc unit)
        (md : string → Exc string)
        (find_all_href : string → Exc (list string)).

Local Abbreviation scrape_body :=
  (scrape_body requests_get raise_for_status md find_all_href).
Local Abbreviation scrape_page :=
  (scrape_page requests_get raise_for_status md find_all_href).
Local Abbreviation filter_links := (filter_links urlparse urljoin).
Local Abbreviation save_page := (save_page urlparse).
Local Abbreviation same_domain := (same_domain urlparse).
Local Abbreviation saved_path := (saved_path urlparse).
Local Abbreviation fails_with :=
  (fails_with requests_get raise_for_status md find_all_href).

Lemma acquire_step_ok n (rate_limiter : option LimiterHandle) :
  (∀ acquire, rate_limiter = Some acquire → acquire n = inr ()) →
  match rate_limiter with Some acquire => acquire n | None => ret () end
  = inr ().
Proof. intros H. destruct rate_limiter; [by apply H | done]. Qed.

Lemma fails_with_body n url rate_limiter e :
  fails_with n url rate_limiter e ↔ scrape_body n url rate_limiter = inl e.
Proof.
  unfold SiteScraper.scrape_body. split.
  - intros [acq -> Ha | Hl Hg | r Hl Hg Hs | r Hl Hg Hs Hm | r m Hl Hg Hs Hm Hf];
      [by rewrite Ha | rewrite (acquire_step_ok _ _ Hl); simpl ..].
    + by rewrite Hg.
    + rewrite Hg. simpl. by rewrite Hs.
    + rewrite Hg. simpl. rewrite Hs. simpl. by rewrite Hm.
    + rewrite Hg. simpl. rewrite Hs. simpl. rewrite Hm. simpl. by rewrite Hf.
  - intros H.
    destruct (match rate_limiter with Some a => a n | None => ret () end)
      as [e0 | []] eqn:Ha.
    { destruct rate_limiter as [acq|]; [|done].
      simpl in H. simplify_eq. by eapply fails_acquire. }
    assert (∀ acquire, rate_limiter = Some acquire → acquire n = inr ()) as Hl.
    { intros acq ->. done. }
    simpl in H.
    destruct (requests_get n url) as [e1 | r] eqn:Hg; simpl in H.
    { simplify_eq. by apply fails_get. }
    destruct (raise_for_status r) as [e2 | []] eqn:Hs; simpl in H.
    { simplify_eq. by eapply fails_status. }
    destruct (md (text r)) as [e3 | m] eqn:Hm; simpl in H.
    { simplify_eq. by eapply fails_convert. }
    destruct (find_all_href (text r)) as [e4 | l] eqn:Hf; simpl in H.
    { simplify_eq. by eapply fails_extract. }
    done.
Qed.

Lemma scrape_body_url n url rate_limiter r :
  scrape_body n url rate_limiter = inr r → page_url r = url.
Proof.
  unfold SiteScraper.scrape_body, bind, ret. intros H.
  repeat match type of H with
         | match ?x with _ => _ end = _ => destruct x; simplify_eq/=
         end.
  done.
Qed.

Lemma scrape_page_url n url rate_limiter :
  page_url (scrape_page n url rate_limiter).1 = url.
Proof.
  unfold SiteScraper.scrape_page.
  destruct (scrape_body n url rate_limiter) as [e|r] eqn:E; [done|].
  by eapply scrape_body_url.
Qed.

(** [filter_links] is a map followed by a filter. *)
Lemma filter_links_spec (links : list string) (base_url : string) :
  filter_links links base_url
  = filter (same_domain base_url) (urljoin base_url <$> links).
Proof.
  unfold SiteScraper.filter_links.
  enough (∀ acc,
    fold_left (λ filtered link,
      if decide (netloc (urlparse (urljoin base_url link))
                 = netloc (urlparse base_url))
      then filtered ++ [urljoin base_url link] else filtered) links acc
    = acc ++ filter (same_domain base_url) (urljoin base_url <$> links))
    as H by apply (H []).
  induction links as [|l links IH]; intros acc; simpl.
  - by rewrite app_nil_r.
  - rewrite IH, filter_cons. unfold Notions.same_domain at 2.
    destruct (decide _); [by rewrite <- app_assoc | done].
Qed.

Lemma elem_of_filter_links (links : list string) (base_url u : string) :
  u ∈ filter_links links base_url ↔
  same_domain base_url u ∧ ∃ h, h ∈ links ∧ u = urljoin base_url h.
Proof.
  rewrite filter_links_spec, list_elem_of_filter, list_elem_of_fmap.
  split.
  - intros [Hd (h & -> & Hh)]. eauto.
  - intros [Hd (h & Hh & ->)]. eauto.
Qed.

Lemma save_page_eq (url markdown_content output_dir : string) (fs : Files) :
  save_page url markdown_content output_dir fs
  = (<[saved_path url output_dir := spec_file_content url markdown_content]> fs,
     [EvSave url (saved_path url output_dir)
        (spec_file_content url markdown_content)]).
Proof.
  unfold SiteScraper.save_page, Notions.saved_path, path_segments, spec_file_content.
  change (list_fmap string string sanitize_filename) with (fmap (M:=list) sanitize_filename).
  destruct (sanitize_filename <$> _) as [|x P'] eqn:E; [done|].
  replace (List.last (x :: P') (sanitize_filename (netloc (urlparse url))))
    with (List.last (x :: P') EmptyString); [done|].
  clear E. revert x. induction P' as [|y P' IH]; intros x; [done|].
  apply (IH y).
Qed.

End WorkerFacts.

(* ===================================================================== *)
(** ** The rate limiter *)
(* ===================================================================== *)

Section RateLimiterFacts.

Import RateLimiter.

(** A first call: no sleep, and the grant is stamped with [now]. *)
Lemma acquire_first (d now lag : Q) :
  acquire (init d) now lag = (mk d now, None).
Proof. reflexivity. Qed.

(** A later call. *)
Lemma acquire_later (self : t) (now lag : Q) :
  (0 < last_request self)%Q → (last_request self <= now)%Q → (0 <= lag)%Q →
  delay (acquire self now lag).1 = delay self
  ∧ (last_request self + delay self <= last_request (acquire self now lag).1)%Q
  ∧ (0 < last_request (acquire self now lag).1)%Q.
Proof.
  intros Hpos Hnow Hlag. unfold acquire.
  destruct (Qeq_bool (last_request self) 0) eqn:E.
  { apply Qeq_bool_iff in E. lra. }
  destruct (Qle_bool (delay self) (now - last_request self)) eqn:El; cbn.
  - apply Qle_bool_iff in El. split_and!; [done | lra..].
  - assert (¬ (delay self <= now - last_request self)%Q) as Hlt.
    { rewrite <- Qle_bool_iff. congruence. }
    split_and!; [done | lra..].
Qed.

Lemma serve_spacing (self : t) (calls : list (Q * Q)) :
  (0 < last_request self)%Q → clock_ok self calls →
  (∀ g rest, serve self calls = g :: rest →
     (last_request self + delay self <= g.1)%Q)
  ∧ (∀ i g1 g2, serve self calls !! i = Some g1 →
       serve self calls !! S i = Some g2 → (g1.1 + delay self <= g2.1)%Q).
Proof.
  revert self. induction calls as [|[now lag] calls IH]; intros self Hpos Hok.
  { split; intros; simplify_eq/=. }
  destruct Hok as (Hnow & _ & Hlag & Hok).
  destruct (acquire_later self now lag Hpos Hnow Hlag) as (Hd & Hsp & Hpos').
  cbn [serve]. destruct (acquire self now lag) as [self' slept] eqn:Ea.
  cbn [fst] in *.
  destruct (IH self' Hpos' Hok) as [IH1 IH2]. rewrite Hd in IH1, IH2.
  split.
  - intros g rest Heq. by simplify_eq/=.
  - intros [|i] g1 g2 H1 H2; simplify_eq/=.
    + destruct (serve self' calls) as [|g rest] eqn:Es; simplify_eq/=.
      by eapply IH1.
    + by eapply IH2.
Qed.

End RateLimiterFacts.

(* ===================================================================== *)
(** ** The dispatcher *)
(* ===================================================================== *)

Section TraceFacts.

Lemma launches_app t1 t2 : launches (t1 ++ t2) = launches t1 ++ launches t2.
Proof. apply omap_app. Qed.
Lemma collects_app t1 t2 : collects (t1 ++ t2) = collects t1 ++ collects t2.
Proof. apply omap_app. Qed.
Lemma visits_app t1 t2 : visits (t1 ++ t2) = visits t1 ++ visits t2.
Proof. apply omap_app. Qed.
Lemma saves_app t1 t2 : saves (t1 ++ t2) = saves t1 ++ saves t2.
Proof. apply omap_app. Qed.

Lemma outstanding_app t1 t2 :
  outstanding (t1 ++ t2) = outstanding t1 + outstanding t2.
Proof.
  unfold outstanding.
  rewrite launches_app, collects_app, !length_app. lia.
Qed.

Lemma bounded_nil N : 0 ≤ N → bounded N [].
Proof.
  intros HN pre suf H. symmetry in H.
  apply app_eq_nil in H as [-> _]. by cbv.
Qed.

Lemma bounded_snoc N tr e :
  bounded N tr → outstanding (tr ++ [e]) ≤ N → bounded N (tr ++ [e]).
Proof.
  intros Hb He pre suf Heq.
  destruct suf as [|x suf _] using rev_ind.
  - rewrite app_nil_r in Heq. by subst.
  - rewrite app_assoc in Heq. apply app_inj_tail in Heq as [Heq _].
    by eapply Hb.
Qed.

Lemma bounded_whole N tr : bounded N tr → outstanding tr ≤ N.
Proof. intros Hb. apply (Hb tr []). by rewrite app_nil_r. Qed.

Lemma bounded_collect N tr (done : list Task) :
  bounded N tr → bounded N (tr ++ collect_events done).
Proof.
  intros Hb. induction done as [|t done IH] using rev_ind.
  - by rewrite app_nil_r.
  - unfold collect_events in *. rewrite fmap_app, app_assoc.
    apply bounded_snoc; [done|].
    apply bounded_whole in IH.
    rewrite outstanding_app. unfold outstanding at 2. simpl. lia.
Qed.

Lemma collect_events_launches done : launches (collect_events done) = [].
Proof. by induction done. Qed.
Lemma collect_events_visits done : visits (collect_events done) = [].
Proof. by induction done. Qed.
Lemma collect_events_saves done : saves (collect_events done) = [].
Proof. by induction done. Qed.

End TraceFacts.

Section DispatcherFacts.

Context (requests_get : nat → string → Exc Response)
        (raise_for_status : Response → Exc unit)
        (md : string → Exc string)
        (find_all_href : string → Exc (list string)).
Context (rate_limiter : option LimiterHandle) (max_concurrency : Z).

Local Abbreviation ray_get :=
  (ray_get requests_get raise_for_status md find_all_href rate_limiter).
Local Abbreviation launch_loop :=
  (launch_loop requests_get raise_for_status md find_all_href
     rate_limiter max_concurrency).
Local Abbreviation process_urls :=
  (process_urls requests_get raise_for_status md find_all_href
     rate_limiter max_concurrency).

Lemma ray_get_url (t : Task) : page_url (ray_get t) = t.2.
Proof. apply scrape_page_url. Qed.

Lemma ray_get_urls (ts : list Task) : page_url <$> (ray_get <$> ts) = ts.*2.
Proof.
  rewrite <- list_fmap_compose. apply list_fmap_ext.
  intros i t _. apply ray_get_url.
Qed.

Lemma tasks_of_urls n urls : (tasks_of n urls).*2 = urls.
Proof. revert n. induction urls as [|u urls IH]; intros n; simpl; [done|]. by rewrite IH. Qed.

(** [ray.wait] hands back one task and keeps the others. *)
Lemma ray_wait_spec (tasks : list Task) (pick : nat) :
  tasks ≠ [] →
  ∃ t, (ray_wait tasks pick).1 = [t]
       ∧ tasks ≡ₚ t :: (ray_wait tasks pick).2
       ∧ S (length (ray_wait tasks pick).2) = length tasks.
Proof.
  intros Hne. unfold ray_wait. simpl.
  assert (pick mod length tasks < length tasks)%nat as Hlt.
  { apply Nat.mod_upper_bound. by destruct tasks. }
  destruct (lookup_lt_is_Some_2 _ _ Hlt) as [t Ht].
  exists t. split_and!.
  - by rewrite (drop_S _ _ _ Ht).
  - by apply delete_Permutation.
  - rewrite length_delete by eauto. lia.
Qed.

(** What the [for] loop maintains. *)
Lemma launch_loop_spec (urls : list string) (n : nat) (p : Pool) :
  let p' := launch_loop urls n p in
  pool_results p' ++ (ray_get <$> pool_tasks p')
    ≡ₚ pool_results p ++ (ray_get <$> (pool_tasks p ++ tasks_of n urls))
  ∧ (∃ new, pool_trace p' = pool_trace p ++ new
            ∧ launches new = urls ∧ visits new = [] ∧ saves new = [])
  ∧ (1 ≤ max_concurrency →
     Z.of_nat (length (pool_tasks p)) < max_concurrency →
     outstanding (pool_trace p) = Z.of_nat (length (pool_tasks p)) →
     bounded max_concurrency (pool_trace p) →
     Z.of_nat (length (pool_tasks p')) < max_concurrency
     ∧ outstanding (pool_trace p') = Z.of_nat (length (pool_tasks p'))
     ∧ bounded max_concurrency (pool_trace p')).
Proof.
  revert n p. induction urls as [|url urls IH]; intros n p.
  { simpl. split_and!.
    - by rewrite app_nil_r.
    - exists []. by rewrite app_nil_r.
    - tauto. }
  cbn [SiteScraper.launch_loop tasks_of].
  destruct (decide _) as [Hfull | Hroom].
  - destruct (next_pick (pool_sched p)) as [pick sched].
    destruct (ray_wait_spec (pool_tasks p ++ [(n, url)]) pick)
      as (t & Hdone & Hperm & Hlen); [by destruct (pool_tasks p)|].
    destruct (ray_wait _ pick) as [done tasks] eqn:Hw.
    simpl in Hdone, Hperm, Hlen. subst done.
    specialize (IH (S n) (mkPool tasks (pool_results p ++ (ray_get <$> [t])) sched
      ((pool_trace p ++ [EvLaunch n url]) ++ collect_events [t]))).
    destruct IH as (IH1 & (new & IH2 & IH3 & IH4 & IH5) & IH6).
    cbn [pool_tasks pool_results pool_sched pool_trace] in *.
    split_and!.
    + rewrite IH1, <- app_assoc. apply Permutation_app_head.
      rewrite <- fmap_app. apply fmap_Permutation.
      trans ((pool_tasks p ++ [(n, url)]) ++ tasks_of (S n) urls);
        [by rewrite Hperm | by rewrite <- app_assoc].
    + exists ([EvLaunch n url] ++ collect_events [t] ++ new). split_and!.
      * by rewrite IH2, <- !app_assoc.
      * rewrite !launches_app, collect_events_launches, IH3. done.
      * rewrite !visits_app, collect_events_visits, IH4. done.
      * rewrite !saves_app, collect_events_saves, IH5. done.
    + intros Hmax Hlt Hout Hb.
      rewrite length_app in Hfull, Hlen. simpl in Hfull, Hlen.
      apply IH6; [done | lia | |].
      * rewrite !outstanding_app, Hout. unfold outstanding. simpl. lia.
      * apply bounded_collect. apply bounded_snoc; [done|].
        rewrite outstanding_app, Hout. unfold outstanding. simpl. lia.
  - specialize (IH (S n) (mkPool (pool_tasks p ++ [(n, url)]) (pool_results p)
      (pool_sched p) (pool_trace p ++ [EvLaunch n url]))).
    destruct IH as (IH1 & (new & IH2 & IH3 & IH4 & IH5) & IH6).
    cbn [pool_tasks pool_results pool_sched pool_trace] in *.
    split_and!.
    + rewrite IH1. by rewrite <- app_assoc, <- cons_middle.
    + exists ([EvLaunch n url] ++ new). split_and!.
      * by rewrite IH2, <- !app_assoc.
      * rewrite !launches_app, IH3. done.
      * rewrite !visits_app, IH4. done.
      * rewrite !saves_app, IH5. done.
    + intros Hmax Hlt Hout Hb.
      rewrite length_app in Hroom. simpl in Hroom.
      apply IH6; [done | rewrite length_app; simpl; lia | |].
      * rewrite outstanding_app, Hout, length_app. unfold outstanding. simpl. lia.
      * apply bounded_snoc; [done|].
        rewrite outstanding_app, Hout. unfold outstanding. simpl. lia.
Qed.

(** The dispatcher: the results are those of the workers launched, one
    per URL, in some order; its events are launches, in the order of
    [urls], and collections. *)
Lemma process_urls_spec (urls : list string) (n : nat) (sched : list nat) :
  (process_urls urls n sched).1.1 ≡ₚ ray_get <$> tasks_of n urls
  ∧ launches (process_urls urls n sched).2 = urls
  ∧ visits (process_urls urls n sched).2 = []
  ∧ saves (process_urls urls n sched).2 = []
  ∧ (1 ≤ max_concurrency →
     bounded max_concurrency (process_urls urls n sched).2).
Proof.
  unfold SiteScraper.process_urls. cbn [fst snd].
  destruct (launch_loop_spec urls n (mkPool [] [] sched []))
    as (H1 & (new & H2 & H3 & H4 & H5) & H6).
  cbn [pool_tasks pool_results pool_sched pool_trace] in *.
  rewrite app_nil_l in H2. rewrite H2.
  split_and!.
  - by rewrite H1.
  - by rewrite launches_app, collect_events_launches, app_nil_r.
  - by rewrite visits_app, collect_events_visits, app_nil_r.
  - by rewrite saves_app, collect_events_saves, app_nil_r.
  - intros Hmax. rewrite <- H2. apply bounded_collect.
    apply H6; [done | simpl; lia | done | apply bounded_nil; lia].
Qed.

Lemma process_urls_urls (urls : list string) (n : nat) (sched : list nat) :
  page_url <$> (process_urls urls n sched).1.1 ≡ₚ urls.
Proof.
  destruct (process_urls_spec urls n sched) as (H & _).
  by rewrite H, ray_get_urls, tasks_of_urls.
Qed.

End DispatcherFacts.

Section TraceOrder.

Lemma split_after_prefix (a b pre suf : list Event) (e : Event) :
  a ++ b = pre ++ e :: suf → e ∉ a →
  ∃ pre', pre = a ++ pre' ∧ b = pre' ++ e :: suf.
Proof.
  intros H He. apply List.app_eq_app in H as [l [[-> H] | [-> ->]]].
  - destruct l as [|x l]; simplify_eq/=.
    + exists []. by rewrite !app_nil_r.
    + exfalso. apply He. apply elem_of_app. right. apply elem_of_cons. tauto.
  - by exists l.
Qed.

Lemma split_in_prefix_or_suffix (a b pre suf : list Event) (e : Event) :
  a ++ b = pre ++ e :: suf →
  (∃ suf', a = pre ++ e :: suf' ∧ suf = suf' ++ b)
  ∨ (∃ pre', pre = a ++ pre' ∧ b = pre' ++ e :: suf).
Proof.
  intros H. apply List.app_eq_app in H as [l [[-> H] | [-> ->]]].
  - destruct l as [|x l]; simplify_eq/=.
    + right. exists []. by rewrite !app_nil_r.
    + left. by exists l.
  - right. by exists l.
Qed.

Lemma visit_elem_of (tr : list Event) (u : string) :
  EvVisit u ∈ tr ↔ u ∈ visits tr.
Proof.
  unfold visits. rewrite list_elem_of_omap. split.
  - intros H. by exists (EvVisit u).
  - intros ([] & H & ?); by simplify_eq.
Qed.

Lemma save_elem_of (tr : list Event) (u p c : string) :
  EvSave u p c ∈ tr ↔ (u, p, c) ∈ saves tr.
Proof.
  unfold saves. rewrite list_elem_of_omap. split.
  - intros H. by exists (EvSave u p c).
  - intros ([] & H & ?); by simplify_eq.
Qed.

Lemma visit_after_launch_nil : visit_after_launch [].
Proof. intros pre u suf H. by destruct pre. Qed.

Lemma save_after_visit_nil : save_after_visit [].
Proof. intros pre u p c suf H. by destruct pre. Qed.

Lemma visit_after_launch_app (t1 t2 : list Event) :
  visit_after_launch t1 →
  (∀ pre u suf, t2 = pre ++ EvVisit u :: suf → u ∈ launches (t1 ++ pre)) →
  visit_after_launch (t1 ++ t2).
Proof.
  intros H1 H2 pre u suf H.
  apply split_in_prefix_or_suffix in H
    as [(suf' & -> & ->) | (pre' & -> & ->)]; eauto.
Qed.

Lemma save_after_visit_no_saves (tr : list Event) :
  saves tr = [] → save_after_visit tr.
Proof.
  intros Hs pre u p c suf ->.
  assert ((u, p, c) ∈ saves (pre ++ EvSave u p c :: suf)) as H.
  { apply save_elem_of, elem_of_app. right. apply elem_of_cons. tauto. }
  rewrite Hs in H. by apply elem_of_nil in H.
Qed.

Lemma save_after_visit_app (t1 t2 : list Event) :
  save_after_visit t1 → save_after_visit t2 →
  (∀ u p c suf, t2 ≠ EvSave u p c :: suf) →
  save_after_visit (t1 ++ t2).
Proof.
  intros H1 H2 Hhd pre u p c suf H.
  apply split_in_prefix_or_suffix in H
    as [(suf' & -> & ->) | (pre' & -> & Ht2)]; [by eapply H1|].
  destruct pre' as [|x pre'].
  - by apply Hhd in Ht2.
  - destruct (H2 _ _ _ _ _ Ht2) as [pre'' ->].
    exists (t1 ++ pre''). by rewrite app_assoc.
Qed.

End TraceOrder.

(* ===================================================================== *)
(** ** One level of the crawl *)
(* ===================================================================== *)

Section LinkLoop.

(** The [for link in new_links] loop. *)
Lemma add_links_spec (V : gset string) (C links nl : list string) :
  (NoDup nl → NoDup (fold_left (add_link V C) links nl))
  ∧ (∀ l, l ∈ fold_left (add_link V C) links nl ↔
          l ∈ nl ∨ (l ∈ links ∧ l ∉ V ∧ l ∉ C)).
Proof.
  revert nl. induction links as [|x links IH]; intros nl; simpl.
  { split; [done|]. intros l. rewrite elem_of_nil. tauto. }
  destruct (IH (add_link V C nl x)) as [IH1 IH2]. split.
  - intros Hnd. apply IH1. unfold add_link.
    destruct (decide _) as [(_ & _ & Hx)|]; [|done].
    apply NoDup_app. split_and!; [done | | apply NoDup_singleton].
    intros y Hy ->%list_elem_of_singleton. done.
  - intros l. rewrite IH2, elem_of_cons. unfold add_link.
    destruct (decide _) as [(HV & HC & Hx)|Hn].
    + rewrite elem_of_app, list_elem_of_singleton. naive_solver.
    + split; [tauto|]. intros [?|[[->|?] [? ?]]]; try tauto.
      destruct (decide (x ∈ nl)); [tauto|]. exfalso. apply Hn. tauto.
Qed.

Lemma urls_to_scrape_all (st : Crawl) :
  (∀ u, u ∈ current_level st → u ∉ visited st) →
  urls_to_scrape st = current_level st.
Proof.
  intros H. unfold urls_to_scrape.
  induction (current_level st) as [|u l IH]; [done|].
  rewrite filter_cons_True by (apply H, elem_of_cons; tauto).
  f_equal. apply IH. intros v Hv. apply H, elem_of_cons. tauto.
Qed.

Lemma write_all_app (w1 w2 : list (string * string * string)) (fs : Files) :
  write_all (w1 ++ w2) fs = write_all w2 (write_all w1 fs).
Proof. apply fold_left_app. Qed.

End LinkLoop.

Section LevelFacts.

Context (urlparse : string → ParseResult) (urljoin : string → string → string).
Context (base_url output_dir : string).

Local Abbreviation filter_links := (filter_links urlparse urljoin).
Local Abbreviation process_result :=
  (process_result urlparse urljoin base_url output_dir).
Local Abbreviation result_events := (result_events urlparse output_dir).
Local Abbreviation saved_path := (saved_path urlparse).

Lemma process_result_visited (C : list string) (lv : Level) (r : PageResult) :
  page_url r ∈ lv_visited lv → process_result C lv r = lv.
Proof. intros H. unfold SiteScraper.process_result. by rewrite decide_True. Qed.

Lemma process_result_fresh (C : list string) (lv : Level) (r : PageResult) :
  page_url r ∉ lv_visited lv →
  process_result C lv r
  = mkLevel ({[page_url r]} ∪ lv_visited lv)
      (fold_left (add_link ({[page_url r]} ∪ lv_visited lv) C)
         (filter_links (page_links r) base_url) (next_level lv))
      (<[saved_path (page_url r) output_dir
         := spec_file_content (page_url r) (page_markdown r)]> (lv_files lv))
      (lv_trace lv ++ result_events r).
Proof.
  intros H. unfold SiteScraper.process_result.
  rewrite decide_False by done. by rewrite save_page_eq.
Qed.

(** The visited set only grows. *)
Lemma process_result_grows (C : list string) (lv : Level) (r : PageResult) :
  lv_visited lv ⊆ lv_visited (process_result C lv r).
Proof.
  destruct (decide (page_url r ∈ lv_visited lv)) as [H|H].
  - by rewrite process_result_visited.
  - rewrite process_result_fresh by done. simpl. set_solver.
Qed.

Lemma fold_results_grows (C : list string) (results : list PageResult) (lv : Level) :
  lv_visited lv ⊆ lv_visited (fold_left (process_result C) results lv).
Proof.
  revert lv. induction results as [|r results IH]; intros lv; simpl; [done|].
  etrans; [apply (process_result_grows C lv r) | apply IH].
Qed.

(** Where the URLs of the next level come from. *)
Lemma next_level_origin (C : list string) (results : list PageResult)
    (lv : Level) (l : string) :
  l ∈ next_level (fold_left (process_result C) results lv) →
  l ∈ next_level lv
  ∨ ∃ r, r ∈ results ∧ l ∈ filter_links (page_links r) base_url.
Proof.
  revert lv. induction results as [|r results IH]; intros lv; simpl; [tauto|].
  intros [H | (r' & Hr' & H)]%IH.
  - destruct (decide (page_url r ∈ lv_visited lv)) as [Hv|Hv].
    + rewrite process_result_visited in H by done. tauto.
    + rewrite process_result_fresh in H by done. simpl in H.
      apply add_links_spec in H as [H | (H & _)]; [tauto|].
      right. exists r. split; [apply elem_of_cons; tauto | done].
  - right. exists r'. split; [apply elem_of_cons; tauto | done].
Qed.

(** The [for result in results] loop, on results that are all new and
    all from the current level. *)
Lemma fold_results_spec (C : list string) (results : list PageResult) (lv : Level) :
  NoDup (page_url <$> results) →
  (∀ u, u ∈ page_url <$> results → u ∉ lv_visited lv ∧ u ∈ C) →
  let lv' := fold_left (process_result C) results lv in
  lv_visited lv' = lv_visited lv ∪ list_to_set (page_url <$> results)
  ∧ lv_trace lv' = lv_trace lv ++ (results ≫= result_events)
  ∧ lv_files lv' = write_all (saves (results ≫= result_events)) (lv_files lv)
  ∧ (NoDup (next_level lv) → NoDup (next_level lv'))
  ∧ (∀ l, l ∈ next_level lv' ↔
          l ∈ next_level lv
          ∨ (l ∉ lv_visited lv ∧ l ∉ C
             ∧ ∃ r, r ∈ results ∧ l ∈ filter_links (page_links r) base_url)).
Proof.
  revert lv. induction results as [|r results IH]; intros lv Hnd Hnew.
  { simpl. split_and!; try done.
    - set_solver.
    - by rewrite app_nil_r.
    - intros l. split; [tauto|]. intros [?|(_ & _ & r & Hr & _)]; [done|].
      by apply elem_of_nil in Hr. }
  rewrite fmap_cons in Hnd, Hnew. apply NoDup_cons in Hnd as [Hr Hnd].
  destruct (Hnew (page_url r)) as [HrV HrC]; [apply elem_of_cons; tauto|].
  cbn [fold_left]. rewrite process_result_fresh by done.
  set (lv1 := mkLevel _ _ _ _).
  destruct (IH lv1) as (IH1 & IH2 & IH3 & IH4 & IH5); [done| |].
  { intros u Hu. destruct (Hnew u) as [HuV HuC]; [apply elem_of_cons; tauto|].
    split; [|done]. subst lv1. simpl. set_solver. }
  rewrite IH1, IH2, IH3. clear IH1 IH2 IH3.
  subst lv1. cbn [lv_visited lv_trace lv_files SiteScraper.next_level] in *.
  destruct (add_links_spec ({[page_url r]} ∪ lv_visited lv) C
    (filter_links (page_links r) base_url) (next_level lv)) as [A1 A2].
  split_and!.
  - rewrite fmap_cons, list_to_set_cons. set_solver.
  - by rewrite bind_cons, <- app_assoc.
  - by rewrite bind_cons, saves_app.
  - intros H. by apply IH4, A1.
  - intros l. rewrite IH5, A2. split.
    + intros [[?|(Hl & HlV & HlC)] | (HlV & HlC & r' & Hr' & Hl)]; [tauto | |].
      * right. split_and!; [set_solver | done |].
        exists r. split; [apply elem_of_cons; tauto | done].
      * right. split_and!; [set_solver | done |].
        exists r'. split; [apply elem_of_cons; tauto | done].
    + intros [?|(HlV & HlC & r' & [->|Hr']%elem_of_cons & Hl)]; [tauto | |].
      * left. right. split_and!; [done | | done].
        intros [->%elem_of_singleton|?]%elem_of_union; done.
      * right. split_and!; [|done|by exists r'].
        intros [->%elem_of_singleton|?]%elem_of_union; done.
Qed.

(** The events of the results of a level. *)
Lemma result_events_visits (results : list PageResult) :
  visits (results ≫= result_events) = page_url <$> results.
Proof. induction results as [|r rs IH]; [done|]. simpl. by f_equal. Qed.

Lemma result_events_launches (results : list PageResult) :
  launches (results ≫= result_events) = [].
Proof. by induction results. Qed.

Lemma result_events_saves_urls (results : list PageResult) :
  (saves (results ≫= result_events)).*1.*1 = page_url <$> results.
Proof. induction results as [|r rs IH]; [done|]. simpl. by f_equal. Qed.

Lemma result_events_saves (results : list PageResult) :
  saves (results ≫= result_events)
  = write_of urlparse output_dir <$> results.
Proof. induction results as [|r rs IH]; [done|]. simpl. by f_equal. Qed.

Lemma result_events_save_after_visit (results : list PageResult) :
  save_after_visit (results ≫= result_events).
Proof.
  induction results as [|r rs IH]; [apply save_after_visit_nil|].
  intros pre u p c suf H. rewrite bind_cons in H.
  destruct pre as [|x [|y pre]]; cbn in H.
  - discriminate H.
  - inversion H; subst. by exists [].
  - assert (rs ≫= result_events = pre ++ EvSave u p c :: suf) as Hr
      by (by inversion H).
    assert (x = EvVisit (page_url r)) as -> by (by inversion H).
    assert (y = EvSave (page_url r) (saved_path (page_url r) output_dir)
                  (spec_file_content (page_url r) (page_markdown r))) as ->
      by (by inversion H).
    destruct (IH _ _ _ _ _ Hr) as [pre' ->].
    by exists (EvVisit (page_url r) :: EvSave (page_url r)
                (saved_path (page_url r) output_dir)
                (spec_file_content (page_url r) (page_markdown r)) :: pre').
Qed.

End LevelFacts.

(* ===================================================================== *)
(** ** The crawl *)
(* ===================================================================== *)

Section CrawlFacts.

Context (urlparse : string → ParseResult) (urljoin : string → string → string).
Context (requests_get : nat → string → Exc Response)
        (raise_for_status : Response → Exc unit)
        (md : string → Exc string)
        (find_all_href : string → Exc (list string)).
Context (base_url output_dir : string) (max_depth : Z)
        (rate_limiter : option LimiterHandle) (max_concurrency : Z).

Local Abbreviation filter_links := (filter_links urlparse urljoin).
Local Abbreviation result_events := (result_events urlparse output_dir).
Local Abbreviation level_results :=
  (level_results requests_get raise_for_status md find_all_href
     rate_limiter max_concurrency).
Local Abbreviation level_dispatched :=
  (level_dispatched requests_get raise_for_status md find_all_href
     rate_limiter max_concurrency).
Local Abbreviation level_step :=
  (level_step urlparse urljoin requests_get raise_for_status md find_all_href
     base_url output_dir rate_limiter max_concurrency).
Local Abbreviation crawl_loop :=
  (crawl_loop urlparse urljoin requests_get raise_for_status md find_all_href
     base_url output_dir max_depth rate_limiter max_concurrency).
Local Abbreviation crawl_website :=
  (crawl_website urlparse urljoin requests_get raise_for_status md find_all_href
     base_url output_dir max_depth rate_limiter max_concurrency).
Local Abbreviation run :=
  (run urlparse urljoin requests_get raise_for_status md find_all_href
     base_url output_dir rate_limiter max_concurrency).
Local Abbreviation continues := (continues max_depth).
Local Abbreviation crawl_init := (crawl_init base_url).

(** The state after a level, in terms of the state before it. *)
Lemma level_step_eq (st : Crawl) :
  level_step st
  = let lv :=
      fold_left
        (process_result urlparse urljoin base_url output_dir (current_level st))
        (level_results st)
        (mkLevel (visited st) [] (files st)
           (trace st ++ [EvLevel (depth st) (length (current_level st))]
              ++ level_dispatched st)) in
    mkCrawl (lv_visited lv) (next_level lv) (depth st + 1) (lv_files lv)
      (launched st + length (urls_to_scrape st))%nat
      (process_urls requests_get raise_for_status md find_all_href
         rate_limiter max_concurrency
         (urls_to_scrape st) (launched st) (schedule st)).1.2
      (lv_trace lv).
Proof.
  unfold SiteScraper.level_step, SiteScraper.level_results,
    SiteScraper.level_dispatched.
  by destruct (process_urls _ _ _ _ _ _ _ _ _) as [[results sched] dispatched].
Qed.

Lemma level_step_depth (st : Crawl) : depth (level_step st) = depth st + 1.
Proof. by rewrite level_step_eq. Qed.

Lemma level_step_grows (st : Crawl) : visited st ⊆ visited (level_step st).
Proof.
  rewrite level_step_eq. cbn zeta. cbn [visited].
  apply (fold_results_grows urlparse urljoin base_url output_dir
           (current_level st) (level_results st)
           (mkLevel (visited st) [] (files st) _)).
Qed.

Lemma next_frontier_origin (st : Crawl) (l : string) :
  l ∈ current_level (level_step st) →
  ∃ r, r ∈ level_results st ∧ l ∈ filter_links (page_links r) base_url.
Proof.
  rewrite level_step_eq. cbn [current_level].
  intros [H|H]%next_level_origin; [|done].
  by apply elem_of_nil in H.
Qed.

Lemma level_step_spec (st : Crawl) :
  NoDup (current_level st) →
  (∀ u, u ∈ current_level st → u ∉ visited st) →
  page_url <$> level_results st ≡ₚ current_level st
  ∧ launches (level_dispatched st) = current_level st
  ∧ visits (level_dispatched st) = []
  ∧ saves (level_dispatched st) = []
  ∧ visited (level_step st) = visited st ∪ list_to_set (current_level st)
  ∧ trace (level_step st)
    = trace st ++ [EvLevel (depth st) (length (current_level st))]
        ++ level_dispatched st ++ (level_results st ≫= result_events)
  ∧ files (level_step st)
    = write_all (saves (level_results st ≫= result_events)) (files st)
  ∧ NoDup (current_level (level_step st))
  ∧ (∀ l, l ∈ current_level (level_step st) ↔
          l ∉ visited st ∧ l ∉ current_level st
          ∧ ∃ r, r ∈ level_results st
                 ∧ l ∈ filter_links (page_links r) base_url).
Proof.
  intros Hnd Hnew.
  assert (page_url <$> level_results st ≡ₚ current_level st) as Hperm.
  { unfold SiteScraper.level_results.
    rewrite process_urls_urls. by rewrite urls_to_scrape_all. }
  destruct (process_urls_spec requests_get raise_for_status md find_all_href
    rate_limiter max_concurrency (urls_to_scrape st) (launched st) (schedule st))
    as (_ & HL & HV & HS & _).
  change (launches (level_dispatched st) = urls_to_scrape st) in HL.
  change (visits (level_dispatched st) = []) in HV.
  change (saves (level_dispatched st) = []) in HS.
  rewrite urls_to_scrape_all in HL by done.
  rewrite level_step_eq. cbn zeta. cbn [visited trace files current_level].
  destruct (fold_results_spec urlparse urljoin base_url output_dir
    (current_level st) (level_results st)
    (mkLevel (visited st) [] (files st)
       (trace st ++ [EvLevel (depth st) (length (current_level st))]
          ++ level_dispatched st)))
    as (F1 & F2 & F3 & F4 & F5).
  { by rewrite Hperm. }
  { intros u Hu. rewrite Hperm in Hu. cbn [lv_visited]. auto. }
  cbn [lv_visited lv_trace lv_files SiteScraper.next_level] in *.
  split_and!; try done.
  - rewrite F1. f_equal. apply set_eq. intros x.
    by rewrite !elem_of_list_to_set, Hperm.
  - by rewrite F2, <- !app_assoc.
  - apply F4, NoDup_nil_2.
  - intros l. rewrite F5, elem_of_nil. tauto.
Qed.

(** *** The invariant *)

Lemma crawl_inv_init (fs0 : Files) (sched : list nat) :
  crawl_inv fs0 (crawl_init fs0 sched).
Proof.
  unfold crawl_inv, SiteScraper.crawl_init. cbn.
  split_and!; try done.
  - apply NoDup_singleton.
  - apply NoDup_nil_2.
  - apply visit_after_launch_nil.
  - apply save_after_visit_nil.
Qed.

Lemma crawl_inv_step (fs0 : Files) (st : Crawl) :
  crawl_inv fs0 st → crawl_inv fs0 (level_step st).
Proof.
  intros (Hnd & Hnew & Hvis & Hndv & Hlv & Hsv & Hval & Hsav & Hfs).
  destruct (level_step_spec st Hnd Hnew)
    as (Hperm & HL & HV & HS & Hvis' & Htr & Hfs' & Hnd' & Hnext).
  unfold crawl_inv. rewrite Htr, Hvis', Hfs'.
  rewrite !visits_app, !launches_app, !saves_app, HL, HV, HS.
  rewrite result_events_visits, result_events_launches.
  cbn [visits launches saves omap app]. rewrite !app_nil_r.
  split_and!.
  - done.
  - intros l (HlV & HlC & _)%Hnext.
    intros [?|?%elem_of_list_to_set]%elem_of_union; done.
  - rewrite Hvis, list_to_set_app_L. f_equal.
    apply set_eq. intros x. by rewrite !elem_of_list_to_set, Hperm.
  - apply NoDup_app. split_and!; [done | | by rewrite Hperm].
    intros u Hu Hu'. rewrite Hperm in Hu'.
    apply (Hnew u Hu'). rewrite Hvis. by apply elem_of_list_to_set.
  - by rewrite Hlv, Hperm.
  - rewrite !fmap_app, Hsv. f_equal. apply result_events_saves_urls.
  - apply visit_after_launch_app; [done|].
    intros pre u suf Hsplit.
    rewrite launches_app. apply elem_of_app. right.
    change (EvLevel (depth st) (length (current_level st))
            :: level_dispatched st ++ (level_results st ≫= result_events))
      with ((EvLevel (depth st) (length (current_level st))
             :: level_dispatched st) ++ (level_results st ≫= result_events))
      in Hsplit.
    apply split_after_prefix in Hsplit as (pre' & -> & Hres).
    + rewrite launches_app. apply elem_of_app. left.
      change (u ∈ launches (level_dispatched st)).
      rewrite HL, <- Hperm, <- (result_events_visits urlparse output_dir).
      apply visit_elem_of. rewrite Hres.
      apply elem_of_app. right. apply elem_of_cons. tauto.
    + intros [?|H]%elem_of_cons; [done|].
      apply visit_elem_of in H. rewrite HV in H. by apply elem_of_nil in H.
  - apply save_after_visit_app; [done | | done].
    change (EvLevel (depth st) (length (current_level st))
            :: level_dispatched st ++ (level_results st ≫= result_events))
      with ((EvLevel (depth st) (length (current_level st))
             :: level_dispatched st) ++ (level_results st ≫= result_events)).
    apply save_after_visit_app.
    + apply save_after_visit_no_saves.
      by change (saves (level_dispatched st) = []).
    + apply result_events_save_after_visit.
    + by destruct (level_results st).
  - by rewrite Hfs, write_all_app.
Qed.

Lemma crawl_inv_run (fs0 : Files) (sched : list nat) (k : nat) :
  crawl_inv fs0 (run fs0 sched k).
Proof.
  induction k as [|k IH]; [apply crawl_inv_init|].
  by apply crawl_inv_step.
Qed.

(** *** The loop *)

Lemma run_depth (fs0 : Files) (sched : list nat) (k : nat) :
  depth (run fs0 sched k) = Z.of_nat k.
Proof.
  induction k as [|k IH]; [done|].
  change (run fs0 sched (S k)) with (level_step (run fs0 sched k)).
  rewrite level_step_depth, IH. lia.
Qed.

Lemma crawl_loop_iter (fuel : nat) (st : Crawl) :
  max_depth + 1 - depth st ≤ Z.of_nat fuel →
  ∃ k, crawl_loop fuel st = Some (Nat.iter k level_step st)
       ∧ continues (Nat.iter k level_step st) = false
       ∧ ∀ j, (j < k)%nat → continues (Nat.iter j level_step st) = true.
Proof.
  revert st. induction fuel as [|fuel IH]; intros st Hfuel.
  - exists 0%nat. cbn [Nat.iter SiteScraper.crawl_loop].
    destruct (continues st) eqn:Hc; [|split_and!; [done..|lia]].
    apply andb_prop in Hc as [_ Hd%bool_decide_eq_true]. lia.
  - cbn [SiteScraper.crawl_loop].
    destruct (continues st) eqn:Hc.
    + destruct (IH (level_step st)) as (k & Hk1 & Hk2 & Hk3).
      { rewrite level_step_depth. lia. }
      exists (S k). rewrite Nat.iter_succ_r. split_and!; [done..|].
      intros [|j] Hj; [done|]. rewrite Nat.iter_succ_r. apply Hk3. lia.
    + exists 0%nat. split_and!; [done..|lia].
Qed.

(** [crawl_website] returns: the loop leaves after some number [k] of
    levels, all of which it has run. *)
Lemma crawl_website_run (fs0 : Files) (sched : list nat) :
  ∃ k, crawl_website fs0 sched = Some (run fs0 sched k)
       ∧ continues (run fs0 sched k) = false
       ∧ ∀ j, (j < k)%nat → continues (run fs0 sched j) = true.
Proof.
  apply crawl_loop_iter. cbn [depth SiteScraper.crawl_init]. lia.
Qed.

(** The trace of a run only grows. *)
Lemma level_step_trace (st : Crawl) :
  ∃ new, trace (level_step st) = trace st ++ new.
Proof.
  rewrite level_step_eq. cbn zeta. cbn [trace].
  set (lv0 := mkLevel _ _ _ _).
  assert (∀ results lv, ∃ new,
    lv_trace (fold_left (process_result urlparse urljoin base_url output_dir
                           (current_level st)) results lv)
    = lv_trace lv ++ new) as H.
  { induction results as [|r rs IH]; intros lv.
    - exists []. by rewrite app_nil_r.
    - cbn [fold_left]. destruct (IH (process_result urlparse urljoin base_url
        output_dir (current_level st) lv r)) as [new ->].
      destruct (decide (page_url r ∈ lv_visited lv)).
      + rewrite process_result_visited by done. by exists new.
      + rewrite process_result_fresh by done. cbn [lv_trace].
        eexists. by rewrite <- app_assoc. }
  destruct (H (level_results st) lv0) as [new ->]. subst lv0. cbn [lv_trace].
  eexists. by rewrite <- !app_assoc.
Qed.

Lemma run_trace_mono (fs0 : Files) (sched : list nat) (j k : nat) :
  (j ≤ k)%nat →
  ∃ new, trace (run fs0 sched k) = trace (run fs0 sched j) ++ new.
Proof.
  induction 1 as [|k Hjk [new IH]].
  - exists []. by rewrite app_nil_r.
  - change (run fs0 sched (S k)) with (level_step (run fs0 sched k)).
    destruct (level_step_trace (run fs0 sched k)) as [new' ->].
    rewrite IH. eexists. by rewrite <- app_assoc.
Qed.

(** *** What a level fetches, saves and collects *)

Lemma frontier_fetched_and_saved (fs0 : Files) (st : Crawl) (u : string) :
  crawl_inv fs0 st → u ∈ current_level st →
  u ∈ launches (trace (level_step st))
  ∧ u ∈ visited (level_step st)
  ∧ u ∈ (saves (trace (level_step st))).*1.*1.
Proof.
  intros (Hnd & Hnew & _) Hu.
  destruct (level_step_spec st Hnd Hnew)
    as (Hperm & HL & _ & _ & Hvis' & Htr & _).
  rewrite Htr, Hvis', !launches_app, !saves_app, !fmap_app, HL.
  rewrite result_events_saves_urls, Hperm.
  split_and!.
  - apply elem_of_app. right. apply elem_of_app. right.
    apply elem_of_app. by left.
  - apply elem_of_union. right. by apply elem_of_list_to_set.
  - apply elem_of_app. right. apply elem_of_app. right.
    apply elem_of_app. by right.
Qed.

Lemma links_collected (fs0 : Files) (st : Crawl) (r : PageResult) (l : string) :
  crawl_inv fs0 st → r ∈ level_results st →
  l ∈ filter_links (page_links r) base_url →
  l ∈ visited (level_step st) ∨ l ∈ current_level (level_step st).
Proof.
  intros (Hnd & Hnew & _) Hr Hl.
  destruct (level_step_spec st Hnd Hnew)
    as (_ & _ & _ & _ & Hvis' & _ & _ & _ & Hnext).
  rewrite Hvis'.
  destruct (decide (l ∈ visited st)) as [?|HV];
    [left; apply elem_of_union; tauto|].
  destruct (decide (l ∈ current_level st)) as [?|HC].
  { left. apply elem_of_union. right. by apply elem_of_list_to_set. }
  right. apply Hnext. split_and!; [done..|]. by exists r.
Qed.

Lemma launches_origin (fs0 : Files) (sched : list nat) (k : nat) (u : string) :
  u ∈ launches (trace (run fs0 sched k)) →
  ∃ j, (j < k)%nat ∧ u ∈ current_level (run fs0 sched j).
Proof.
  induction k as [|k IH]; intros Hu.
  { by apply elem_of_nil in Hu. }
  change (run fs0 sched (S k)) with (level_step (run fs0 sched k)) in Hu.
  destruct (crawl_inv_run fs0 sched k) as (Hnd & Hnew & _).
  destruct (level_step_spec _ Hnd Hnew) as (_ & HL & _ & _ & _ & Htr & _).
  rewrite Htr, !launches_app, HL, result_events_launches in Hu.
  apply elem_of_app in Hu as [Hu|Hu].
  - destruct (IH Hu) as (j & Hj & Hin). exists j. split; [lia | done].
  - exists k. split; [lia|].
    apply elem_of_app in Hu as [Hu|Hu]; [by apply elem_of_nil in Hu|].
    by rewrite app_nil_r in Hu.
Qed.

Lemma launches_mono (fs0 : Files) (sched : list nat) (j k : nat) (u : string) :
  (j ≤ k)%nat → u ∈ launches (trace (run fs0 sched j)) →
  u ∈ launches (trace (run fs0 sched k)).
Proof.
  intros Hjk Hu. destruct (run_trace_mono fs0 sched j k Hjk) as [new ->].
  rewrite launches_app. apply elem_of_app. by left.
Qed.

Lemma saves_mono (fs0 : Files) (sched : list nat) (j k : nat) (u : string) :
  (j ≤ k)%nat → u ∈ (saves (trace (run fs0 sched j))).*1.*1 →
  u ∈ (saves (trace (run fs0 sched k))).*1.*1.
Proof.
  intros Hjk Hu. destruct (run_trace_mono fs0 sched j k Hjk) as [new ->].
  rewrite saves_app, !fmap_app. apply elem_of_app. by left.
Qed.

(** An empty frontier is followed by an empty frontier. *)
Lemma empty_frontier_stays (st : Crawl) :
  current_level st = [] → current_level (level_step st) = [].
Proof.
  intros Hempty.
  destruct (current_level (level_step st)) as [|l rest] eqn:E; [done|].
  destruct (next_frontier_origin st l) as (r & Hr & _).
  { rewrite E. apply elem_of_cons. tauto. }
  unfold SiteScraper.level_results, urls_to_scrape in Hr.
  rewrite Hempty in Hr. by apply elem_of_nil in Hr.
Qed.

Lemma run_visited_mono (fs0 : Files) (sched : list nat) (i j : nat) :
  (i ≤ j)%nat → visited (run fs0 sched i) ⊆ visited (run fs0 sched j).
Proof.
  induction 1 as [|j Hij IH]; [done|].
  etrans; [exact IH|]. apply level_step_grows.
Qed.

(** The frontiers of a run are pairwise disjoint: a URL is discovered at
    one depth. *)
Lemma frontier_disjoint (fs0 : Files) (sched : list nat) (i j : nat) (u : string) :
  (i < j)%nat → u ∈ current_level (run fs0 sched i) →
  u ∉ current_level (run fs0 sched j).
Proof.
  intros Hij Hi Hj.
  destruct (frontier_fetched_and_saved fs0 _ u (crawl_inv_run fs0 sched i) Hi)
    as (_ & Hv & _).
  destruct (crawl_inv_run fs0 sched j) as (_ & Hnew & _).
  apply (Hnew u Hj).
  by apply (run_visited_mono fs0 sched (S i) j); [lia|].
Qed.

(** What is in a frontier has not been fetched before. *)
Lemma frontier_not_launched (fs0 : Files) (sched : list nat) (k j : nat)
    (u : string) :
  (k ≤ j)%nat → u ∈ current_level (run fs0 sched j) →
  u ∉ launches (trace (run fs0 sched k)).
Proof.
  intros Hkj Hu Hl.
  apply (launches_mono fs0 sched k j u Hkj) in Hl.
  destruct (crawl_inv_run fs0 sched j) as (_ & Hnew & Hvis & _ & Hlv & _).
  apply (Hnew u Hu). rewrite Hvis. apply elem_of_list_to_set.
  by rewrite <- Hlv.
Qed.

End CrawlFacts.

Section TraceInvariant.

(** A URL is launched only if it was neither launched nor visited
    before. *)
Lemma launch_fresh (fs0 : Files) (st : Crawl) (pre suf : list Event)
    (n : nat) (u : string) :
  crawl_inv fs0 st → trace st = pre ++ EvLaunch n u :: suf →
  u ∉ visits pre ∧ u ∉ launches pre.
Proof.
  intros (_ & _ & _ & Hndv & Hlv & _ & Hval & _) Htr.
  assert (NoDup (launches (trace st))) as Hndl by (by rewrite Hlv).
  rewrite Htr, launches_app in Hndl. cbn [launches omap] in Hndl.
  apply NoDup_app in Hndl as (_ & Hdisj & _).
  assert (u ∉ launches pre) as Hl.
  { intros H. apply (Hdisj u H). apply elem_of_cons. tauto. }
  split; [|done].
  intros (p1 & p2 & ->)%visit_elem_of%list_elem_of_split.
  rewrite <- app_assoc in Htr. cbn [app] in Htr.
  apply Hval in Htr. apply Hl. rewrite launches_app.
  apply elem_of_app. by left.
Qed.

End TraceInvariant.

(* ===================================================================== *)
(** ** Two runs on unchanged content *)
(* ===================================================================== *)

Section Writes.

Lemma write_all_perm (w1 w2 : list (string * string * string)) (fs : Files) :
  w1 ≡ₚ w2 →
  (∀ x y, x ∈ w1 → y ∈ w1 → x.1.2 = y.1.2 → x.2 = y.2) →
  write_all w1 fs = write_all w2 fs.
Proof.
  intros Hp. revert fs.
  induction Hp as [|x l l' Hp IH|x y l|l l' l'' Hp1 IH1 Hp2 IH2];
    intros fs Hfun.
  - done.
  - cbn. apply IH. intros a b Ha Hb Hk.
    apply Hfun; [apply elem_of_cons; tauto.. | done].
  - cbn. f_equal.
    destruct (decide (x.1.2 = y.1.2)) as [Heq|Hne].
    + rewrite Heq, !insert_insert_eq. f_equal.
      apply Hfun; [| |done].
      * apply elem_of_cons. right. apply elem_of_cons. tauto.
      * apply elem_of_cons. tauto.
    + by apply insert_insert_ne.
  - rewrite IH1 by done. apply IH2.
    intros a b Ha Hb Hk. apply Hfun; [by rewrite Hp1.. | done].
Qed.

Lemma write_all_dom (w : list (string * string * string)) (fs : Files) :
  dom (write_all w fs) = dom fs ∪ list_to_set (w.*1.*2).
Proof.
  revert fs. induction w as [|x w IH]; intros fs; cbn.
  - set_solver.
  - change (fold_left _ w ?m) with (write_all w m).
    rewrite IH, dom_insert_L. set_solver.
Qed.

(** Where writes to one path all carry one content, that content is what
    the path holds in the end, whatever the tree was before. *)
Lemma write_all_lookup (w : list (string * string * string)) (fs : Files)
    (x : string * string * string) :
  (∀ a b, a ∈ w → b ∈ w → a.1.2 = b.1.2 → a.2 = b.2) →
  x ∈ w → write_all w fs !! x.1.2 = Some x.2.
Proof.
  induction w as [|y w IH] using rev_ind; intros Hfun Hx.
  { by apply elem_of_nil in Hx. }
  rewrite write_all_app. cbn.
  destruct (decide (y.1.2 = x.1.2)) as [Heq|Hne].
  - rewrite Heq, lookup_insert_eq. f_equal.
    apply Hfun; [apply elem_of_app; right; apply elem_of_cons; tauto | done..].
  - rewrite lookup_insert_ne by done.
    apply elem_of_app in Hx as [Hx|Hx%list_elem_of_singleton].
    + apply IH; [|done]. intros a b Ha Hb.
      apply Hfun; apply elem_of_app; tauto.
    + by subst.
Qed.

Lemma NoDup_fmap_eq {A B} (f : A → B) (l : list A) (x y : A) :
  NoDup (f <$> l) → x ∈ l → y ∈ l → f x = f y → x = y.
Proof.
  induction l as [|a l IH]; intros Hnd Hx Hy Hf.
  - by apply elem_of_nil in Hx.
  - rewrite fmap_cons in Hnd. apply NoDup_cons in Hnd as [Ha Hnd].
    apply elem_of_cons in Hx as [->|Hx]; apply elem_of_cons in Hy as [->|Hy].
    + done.
    + exfalso. apply Ha. rewrite Hf. by apply list_elem_of_fmap_2.
    + exfalso. apply Ha. rewrite <- Hf. by apply list_elem_of_fmap_2.
    + by apply IH.
Qed.

End Writes.

Section Rerun.

Context (urlparse : string → ParseResult) (urljoin : string → string → string).
Context (requests_get : nat → string → Exc Response)
        (raise_for_status : Response → Exc unit)
        (md : string → Exc string)
        (find_all_href : string → Exc (list string)).
Context (base_url output_dir : string) (max_depth : Z).

Local Abbreviation page_of :=
  (page_of requests_get raise_for_status md find_all_href).
Local Abbreviation level_results :=
  (level_results requests_get raise_for_status md find_all_href).
Local Abbreviation level_step :=
  (level_step urlparse urljoin requests_get raise_for_status md find_all_href
     base_url output_dir).
Local Abbreviation run :=
  (run urlparse urljoin requests_get raise_for_status md find_all_href
     base_url output_dir).
Local Abbreviation crawl_website :=
  (crawl_website urlparse urljoin requests_get raise_for_status md
     find_all_href base_url output_dir max_depth).
Local Abbreviation saved_path := (saved_path urlparse).

Hypothesis Hdet : deterministic_fetch requests_get.

Lemma scrape_page_page_of (n : nat) (url : string)
    (rate_limiter : option LimiterHandle) :
  reliable rate_limiter →
  (scrape_page requests_get raise_for_status md find_all_href
     n url rate_limiter).1 = page_of url.
Proof using Hdet.
  intros Hrel. unfold Notions.page_of, scrape_page, scrape_body.
  rewrite (acquire_step_ok n rate_limiter)
    by (intros acq Hacq; by apply Hrel).
  by rewrite (Hdet n 0%nat url).
Qed.

Lemma level_results_page_of (rate_limiter : option LimiterHandle)
    (max_concurrency : Z) (st : Crawl) :
  reliable rate_limiter →
  level_results rate_limiter max_concurrency st
  ≡ₚ page_of <$> urls_to_scrape st.
Proof using Hdet.
  intros Hrel. unfold SiteScraper.level_results.
  destruct (process_urls_spec requests_get raise_for_status md find_all_href
    rate_limiter max_concurrency (urls_to_scrape st) (launched st) (schedule st))
    as (-> & _).
  rewrite <- (tasks_of_urls (launched st) (urls_to_scrape st)) at 2.
  rewrite <- list_fmap_compose.
  assert (ray_get requests_get raise_for_status md find_all_href rate_limiter
            <$> tasks_of (launched st) (urls_to_scrape st)
          = page_of ∘ snd <$> tasks_of (launched st) (urls_to_scrape st))
    as ->; [|done].
  apply list_fmap_ext. intros i [n u] _. cbn.
  by apply scrape_page_page_of.
Qed.

(** Every write of a run goes to the path computed from its URL. *)
Lemma run_saves_paths (rate_limiter : option LimiterHandle)
    (max_concurrency : Z) (fs : Files) (sched : list nat) (k : nat) :
  Forall (λ w, w.1.2 = saved_path w.1.1 output_dir)
    (saves (trace (run rate_limiter max_concurrency fs sched k))).
Proof.
  induction k as [|k IH]; [by apply Forall_nil|].
  change (run rate_limiter max_concurrency fs sched (S k))
    with (level_step rate_limiter max_concurrency
            (run rate_limiter max_concurrency fs sched k)).
  destruct (crawl_inv_run urlparse urljoin requests_get raise_for_status md
    find_all_href base_url output_dir rate_limiter max_concurrency fs sched k)
    as (Hnd & Hnew & _).
  destruct (level_step_spec urlparse urljoin requests_get raise_for_status
    md find_all_href base_url output_dir rate_limiter max_concurrency _
    Hnd Hnew) as (_ & _ & _ & HS & _ & Htr & _).
  rewrite Htr, !saves_app, HS, result_events_saves.
  apply Forall_app. split; [done|]. cbn [saves omap app].
  apply Forall_fmap, Forall_forall. by intros r _.
Qed.

Context (rlA rlB : option LimiterHandle) (mcA mcB : Z).
Hypothesis HrelA : reliable rlA.
Hypothesis HrelB : reliable rlB.

Lemma same_up_to_order_step (fsA fsB : Files) (stA stB : Crawl) :
  crawl_inv fsA stA → crawl_inv fsB stB →
  same_up_to_order stA stB →
  same_up_to_order (level_step rlA mcA stA) (level_step rlB mcB stB).
Proof using Hdet HrelA HrelB.
  intros (HndA & HnewA & _) (HndB & HnewB & _) (Hv & Hc & Hd & Hs).
  destruct (level_step_spec urlparse urljoin requests_get raise_for_status
    md find_all_href base_url output_dir rlA mcA stA HndA HnewA)
    as (_ & _ & _ & HSA & HvA & HtA & _ & HndA' & HnextA).
  destruct (level_step_spec urlparse urljoin requests_get raise_for_status
    md find_all_href base_url output_dir rlB mcB stB HndB HnewB)
    as (_ & _ & _ & HSB & HvB & HtB & _ & HndB' & HnextB).
  assert (level_results rlA mcA stA ≡ₚ level_results rlB mcB stB) as Hres.
  { rewrite !level_results_page_of by done.
    rewrite !urls_to_scrape_all by done. by rewrite Hc. }
  unfold same_up_to_order. split_and!.
  - rewrite HvA, HvB, Hv. f_equal. apply set_eq. intros x.
    by rewrite !elem_of_list_to_set, Hc.
  - apply NoDup_Permutation; [done..|].
    intros l. rewrite HnextA, HnextB, Hv.
    assert (l ∈ current_level stA ↔ l ∈ current_level stB) as ->
      by (by rewrite Hc).
    split; intros (H1 & H2 & r & Hr & Hl); (split_and!; [done..|]);
      exists r; (split; [|done]).
    + by rewrite <- Hres.
    + by rewrite Hres.
  - rewrite !level_step_depth. by rewrite Hd.
  - rewrite HtA, HtB, !saves_app, HSA, HSB, !result_events_saves.
    cbn [saves omap app]. by rewrite Hs, Hres.
Qed.

Lemma same_up_to_order_run (fsA fsB : Files) (schedA schedB : list nat)
    (k : nat) :
  same_up_to_order (run rlA mcA fsA schedA k) (run rlB mcB fsB schedB k).
Proof using Hdet HrelA HrelB.
  induction k as [|k IH]; [done|].
  eapply same_up_to_order_step; [apply crawl_inv_run.. | done].
Qed.

Lemma same_up_to_order_continues (stA stB : Crawl) :
  same_up_to_order stA stB →
  continues max_depth stA = continues max_depth stB.
Proof.
  intros (_ & Hc & Hd & _). unfold continues. rewrite Hd. f_equal.
  apply bool_decide_ext. split; intros H Heq; rewrite Heq in Hc.
  - by apply Permutation_nil_r in Hc.
  - by apply Permutation_nil_l in Hc.
Qed.

(** The two runs stop after the same number of levels. *)
Lemma rerun_same_levels (fsA fsB : Files) (schedA schedB : list nat) :
  ∃ k, crawl_website rlA mcA fsA schedA = Some (run rlA mcA fsA schedA k)
       ∧ crawl_website rlB mcB fsB schedB = Some (run rlB mcB fsB schedB k).
Proof using Hdet HrelA HrelB.
  destruct (crawl_website_run urlparse urljoin requests_get raise_for_status
    md find_all_href base_url output_dir max_depth rlA mcA fsA schedA)
    as (kA & HA1 & HA2 & HA3).
  destruct (crawl_website_run urlparse urljoin requests_get raise_for_status
    md find_all_href base_url output_dir max_depth rlB mcB fsB schedB)
    as (kB & HB1 & HB2 & HB3).
  assert (∀ j, continues max_depth (run rlA mcA fsA schedA j)
               = continues max_depth (run rlB mcB fsB schedB j)) as Hsame.
  { intros j. apply same_up_to_order_continues, same_up_to_order_run. }
  assert (kA = kB) as ->.
  { destruct (Nat.lt_trichotomy kA kB) as [Hlt | [-> | Hlt]]; [|done|].
    - specialize (HB3 kA Hlt). rewrite <- Hsame in HB3. congruence.
    - specialize (HA3 kB Hlt). rewrite Hsame in HA3. congruence. }
  by exists kB.
Qed.

End Rerun.

(* ===================================================================== *)
(** ** The claims of the specification *)
(* ===================================================================== *)

Section WorkerClaims.

Context (urlparse : string → ParseResult) (urljoin : string → string → string).
Context (requests_get : nat → string → Exc Response)
        (raise_for_status : Response → Exc unit)
        (md : string → Exc string)
        (find_all_href : string → Exc (list string)).

Local Abbreviation scrape_page :=
  (scrape_page requests_get raise_for_status md find_all_href).
Local Abbreviation fails_with :=
  (fails_with requests_get raise_for_status md find_all_href).
Local Abbreviation save_page := (save_page urlparse).

(** C5.  Whatever step of the fetch fails (the rate limiter, the request,
    the status check, the conversion to Markdown, the extraction of the
    links), [scrape_page] returns to its caller: the result has the URL it
    was given, empty Markdown and no links, and the failure is only
    printed.  In every case the result carries the URL it was given. *)
Theorem scrape_page_contains_failures (n : nat) (url : string)
    (rate_limiter : option LimiterHandle) :
  page_url (scrape_page n url rate_limiter).1 = url
  ∧ ∀ e, fails_with n url rate_limiter e →
      scrape_page n url rate_limiter
      = (mkPageResult url EmptyString [], [error_line url e]).
Proof.
  split; [apply scrape_page_url|].
  intros e He%fails_with_body. unfold SiteScraper.scrape_page.
  by rewrite He.
Qed.

(** C4.  [save_page] writes one file.  With host [H], non-empty path
    components [P] and fragment [F] of the URL, the directory is the output
    directory joined with the sanitised host and all sanitised components
    but the last; the base name is the last sanitised component, or the
    sanitised host when there is none; the file name is [base.md], or
    [base_F.md] with the sanitised fragment; the content is a hash sign and
    a space, the URL, an empty line and the Markdown.  When the output
    directory is a non-empty path that does not end with a slash and the
    host is not empty, that file path is the one spelt with slashes in the
    specification.  Sanitising replaces, character by character, the nine
    characters of the specification by an underscore. *)
Theorem save_page_layout (url markdown_content output_dir : string) (fs : Files) :
  let H := netloc (urlparse url) in
  let P := path_segments (path (urlparse url)) in
  let F := fragment (urlparse url) in
  let H' := sanitize_filename H in
  let P' := sanitize_filename <$> P in
  let base := List.last P' H' in
  let filename :=
    if Py.truthy F then base +:+ "_" +:+ sanitize_filename F +:+ ".md"
    else base +:+ ".md" in
  let file_path :=
    Posixpath.join (Posixpath.join output_dir (H' :: Py.init P')) [filename] in
  let content := "# " +:+ url +:+ newline +:+ newline +:+ markdown_content in
  save_page url markdown_content output_dir fs
  = (<[file_path := content]> fs, [EvSave url file_path content])
  ∧ (Py.truthy output_dir = true → Py.endswith "/" output_dir = false →
     Py.truthy H = true →
     file_path = spec_file_path output_dir H P F)
  ∧ (∀ s i, String.get i (sanitize_filename s)
            = (λ c, if bool_decide
                         (c ∈ ["\"; "/"; "*"; "?"; ":"; ascii_of_nat 34;
                               "<"; ">"; "|"]%char)
                    then "_"%char else c) <$> String.get i s).
Proof.
  cbn zeta. split_and!.
  - apply save_page_eq.
  - intros Hout Hend HH. unfold spec_file_path.
    rewrite posix_join_app.
    rewrite posix_join_plain; [done..|].
    pose proof (sanitized_segments_plain (path (urlparse url))) as HP.
    pose proof (sanitize_plain _ HH) as HH'.
    apply Forall_cons. split; [done|].
    apply Forall_app. split; [by apply Forall_init|].
    apply Forall_singleton.
    pose proof (last_plain _ _ HP HH') as Hbase.
    destruct (Py.truthy (fragment (urlparse url))).
    + apply plain_append; [done..|].
      rewrite endswith_append by (by apply truthy_append_r).
      by rewrite endswith_append.
    + by apply plain_append.
  - intros s i. rewrite sanitize_get.
    destruct (String.get i s) as [c|]; [|done]. cbn. f_equal.
    destruct (unsafe_char c) eqn:E.
    + apply unsafe_char_spec in E. by rewrite bool_decide_eq_true_2.
    + rewrite bool_decide_eq_false_2; [done|].
      intros H%unsafe_char_spec. congruence.
Qed.

End WorkerClaims.

(** A run of [save_page_layout] on a URL with a path and a fragment. *)
Lemma save_page_layout_witness :
  Py.truthy "out" = true ∧ Py.endswith "/" "out" = false
  ∧ Py.truthy (netloc (Urllib.urlparse "https://ex.com/a/b#c")) = true
  ∧ (save_page Urllib.urlparse "https://ex.com/a/b#c" "text" "out" ∅).2
    = [EvSave "https://ex.com/a/b#c" "out/ex.com/a/b_c.md"
         ("# https://ex.com/a/b#c" +:+ newline +:+ newline +:+ "text")].
Proof.
  split_and!; [reflexivity..|].
  destruct (save_page_layout Urllib.urlparse
    "https://ex.com/a/b#c" "text" "out" ∅) as (Hsave & Hpath & _).
  rewrite Hsave. cbn [snd].
  rewrite Hpath by reflexivity. reflexivity.
Defined.

(** C3.  What the code does on the example of the specification: the page
    of [https://docs.example.com/stream/deploy-cloud#pricing] is written to
    [out/docs.example.com/stream/deploy-cloud_pricing.md], next to the
    directory [stream], and not inside a directory [deploy-cloud]. *)
Theorem save_page_fragment_example (markdown_content : string) (fs : Files) :
  save_page Urllib.urlparse
    "https://docs.example.com/stream/deploy-cloud#pricing"
    markdown_content "out" fs
  = (<["out/docs.example.com/stream/deploy-cloud_pricing.md"
       := spec_file_content
            "https://docs.example.com/stream/deploy-cloud#pricing"
            markdown_content]> fs,
     [EvSave "https://docs.example.com/stream/deploy-cloud#pricing"
        "out/docs.example.com/stream/deploy-cloud_pricing.md"
        (spec_file_content
           "https://docs.example.com/stream/deploy-cloud#pricing"
           markdown_content)])
  ∧ "out/docs.example.com/stream/deploy-cloud_pricing.md"
    ≠ "out/docs.example.com/stream/deploy-cloud/deploy-cloud_pricing.md".
Proof. split; [reflexivity | discriminate]. Qed.



Section DispatcherClaims.

Context (requests_get : nat → string → Exc Response)
        (raise_for_status : Response → Exc unit)
        (md : string → Exc string)
        (find_all_href : string → Exc (list string)).
Context (rate_limiter : option LimiterHandle).

Local Abbreviation process_urls :=
  (process_urls requests_get raise_for_status md find_all_href rate_limiter).

(** C7.  With [max_concurrency >= 1], [process_urls] returns one result
    per input URL: the URLs of the results are the input URLs up to order.
    Along its run the number of workers launched and not yet collected
    never exceeds [max_concurrency].  The order of the results need not be
    the order of the input: with two URLs and two workers allowed, the
    schedule that hands back the second worker first returns the results
    swapped. *)
Theorem process_urls_one_result_per_url (max_concurrency : Z)
    (urls : list string) (n : nat) (sched : list nat) :
  1 ≤ max_concurrency →
  page_url <$> (process_urls max_concurrency urls n sched).1.1 ≡ₚ urls
  ∧ length (process_urls max_concurrency urls n sched).1.1 = length urls
  ∧ bounded max_concurrency (process_urls max_concurrency urls n sched).2
  ∧ (∀ a b, page_url <$> (process_urls 2 [a; b] n [1%nat]).1.1 = [b; a]).
Proof.
  intros Hmax.
  pose proof (process_urls_urls requests_get raise_for_status md
    find_all_href rate_limiter max_concurrency urls n sched) as Hperm.
  split_and!.
  - done.
  - apply Permutation_length in Hperm. by rewrite length_fmap in Hperm.
  - by apply process_urls_spec.
  - intros a b.
    change (page_url <$>
              [ray_get requests_get raise_for_status md find_all_href
                 rate_limiter (S n, b);
               ray_get requests_get raise_for_status md find_all_href
                 rate_limiter (n, a)] = [b; a]).
    cbn [fmap list_fmap]. by rewrite !ray_get_url.
Qed.

End DispatcherClaims.

(** Three URLs of the example site through two workers. *)
Lemma process_urls_one_result_per_url_witness :
  1 ≤ 2
  ∧ page_url <$>
      (process_urls Example.requests_get Example.raise_for_status Example.md
         Example.find_all_href None 2
         ["https://ex.com/a?x=1"; "https://ex.com/a?x=2"; "https://ex.com/docs/"]
         0 [1%nat; 0%nat]).1.1
    ≡ₚ ["https://ex.com/a?x=1"; "https://ex.com/a?x=2"; "https://ex.com/docs/"].
Proof.
  split; [lia|].
  apply (process_urls_one_result_per_url Example.requests_get
           Example.raise_for_status Example.md Example.find_all_href None 2
           ["https://ex.com/a?x=1"; "https://ex.com/a?x=2"; "https://ex.com/docs/"]
           0 [1%nat; 0%nat]).
  lia.
Defined.

Section CrawlClaims.

Context (urlparse : string → ParseResult) (urljoin : string → string → string).
Context (requests_get : nat → string → Exc Response)
        (raise_for_status : Response → Exc unit)
        (md : string → Exc string)
        (find_all_href : string → Exc (list string)).
Context (base_url output_dir : string) (max_depth : Z)
        (rate_limiter : option LimiterHandle) (max_concurrency : Z).

Local Abbreviation filter_links := (filter_links urlparse urljoin).
Local Abbreviation same_domain := (same_domain urlparse).
Local Abbreviation level_results :=
  (level_results requests_get raise_for_status md find_all_href
     rate_limiter max_concurrency).
Local Abbreviation level_step :=
  (level_step urlparse urljoin requests_get raise_for_status md find_all_href
     base_url output_dir rate_limiter max_concurrency).
Local Abbreviation crawl_website :=
  (crawl_website urlparse urljoin requests_get raise_for_status md find_all_href
     base_url output_dir max_depth rate_limiter max_concurrency).
Local Abbreviation run :=
  (run urlparse urljoin requests_get raise_for_status md find_all_href
     base_url output_dir rate_limiter max_concurrency).

(** C8.  [filter_links] resolves every link against the base URL and
    keeps exactly those whose network location is that of the base URL:
    what it returns has the host of the base URL, and a link that resolves
    to another host is not returned.  Hence every URL of every frontier
    after the seed has the host of the seed. *)
Theorem frontier_same_domain :
  (∀ links base u, u ∈ filter_links links base →
     netloc (urlparse u) = netloc (urlparse base))
  ∧ (∀ links base h,
       netloc (urlparse (urljoin base h)) ≠ netloc (urlparse base) →
       urljoin base h ∉ filter_links links base)
  ∧ (∀ links base h, h ∈ links →
       netloc (urlparse (urljoin base h)) = netloc (urlparse base) →
       urljoin base h ∈ filter_links links base)
  ∧ (∀ fs sched k u, u ∈ current_level (run fs sched (S k)) →
       netloc (urlparse u) = netloc (urlparse base_url)).
Proof.
  split_and!.
  - intros links base u [H _]%elem_of_filter_links. exact H.
  - intros links base h Hne [H _]%elem_of_filter_links. by apply Hne.
  - intros links base h Hh Heq. apply elem_of_filter_links.
    split; [exact Heq | by exists h].
  - intros fs sched k u Hu.
    change (run fs sched (S k)) with (level_step (run fs sched k)) in Hu.
    apply next_frontier_origin in Hu as (r & _ & [H _]%elem_of_filter_links).
    exact H.
Qed.

(** C10.  Every link is resolved against the seed URL of the crawl, and
    not against the URL of the page it was found on: what [filter_links]
    returns are the [urljoin(base_url, h)], and every URL of a frontier
    after the seed is [urljoin(base_url, h)] for a link [h] of a page of
    the level before.  On the example site the link [guide], found on the
    page [https://ex.com/docs/], enters the frontier as
    [https://ex.com/guide]. *)
Theorem links_resolved_against_seed :
  (∀ links base,
     filter_links links base
     = filter (same_domain base) (urljoin base <$> links))
  ∧ (∀ fs sched k u, u ∈ current_level (run fs sched (S k)) →
       ∃ r h, r ∈ level_results (run fs sched k)
              ∧ h ∈ page_links r ∧ u = urljoin base_url h)
  ∧ (∃ st, Example.crawl 1 4 [] = Some st
           ∧ mkPageResult "https://ex.com/docs/" "guide" ["guide"]
             ∈ SiteScraper.level_results Example.requests_get
                 Example.raise_for_status Example.md Example.find_all_href
                 None 4
                 (SiteScraper.run Urllib.urlparse Urllib.urljoin
                    Example.requests_get Example.raise_for_status Example.md
                    Example.find_all_href Example.seed "out" None 4 ∅ [] 1)
           ∧ Urllib.urljoin Example.seed "guide" = "https://ex.com/guide"
           ∧ Urllib.urljoin "https://ex.com/docs/" "guide"
             = "https://ex.com/docs/guide"
           ∧ "https://ex.com/guide" ∈ current_level st
           ∧ "https://ex.com/docs/guide" ∉ current_level st).
Proof.
  split_and!.
  - apply filter_links_spec.
  - intros fs sched k u Hu.
    change (run fs sched (S k)) with (level_step (run fs sched k)) in Hu.
    apply next_frontier_origin in Hu
      as (r & Hr & [_ (h & Hh & ->)]%elem_of_filter_links).
    by exists r, h.
  - eexists. split; [vm_compute; reflexivity|].
    split_and!; [|vm_compute; reflexivity..| |].
    + vm_compute. apply elem_of_cons. right. apply elem_of_cons. right.
      apply elem_of_cons. by left.
    + cbn [current_level]. apply elem_of_cons. right.
      apply elem_of_cons. right. apply elem_of_cons. by left.
    + cbn [current_level]. intros H.
      repeat (apply elem_of_cons in H as [H|H]; [discriminate H|]).
      by apply elem_of_nil in H.
Qed.

End CrawlClaims.

Section RunClaims.

Context (urlparse : string → ParseResult) (urljoin : string → string → string).
Context (requests_get : nat → string → Exc Response)
        (raise_for_status : Response → Exc unit)
        (md : string → Exc string)
        (find_all_href : string → Exc (list string)).
Context (base_url output_dir : string) (max_depth : Z)
        (rate_limiter : option LimiterHandle) (max_concurrency : Z).

Local Abbreviation filter_links := (filter_links urlparse urljoin).
Local Abbreviation level_results :=
  (level_results requests_get raise_for_status md find_all_href
     rate_limiter max_concurrency).
Local Abbreviation level_step :=
  (level_step urlparse urljoin requests_get raise_for_status md find_all_href
     base_url output_dir rate_limiter max_concurrency).
Local Abbreviation crawl_website :=
  (crawl_website urlparse urljoin requests_get raise_for_status md find_all_href
     base_url output_dir max_depth rate_limiter max_concurrency).
Local Abbreviation run :=
  (run urlparse urljoin requests_get raise_for_status md find_all_href
     base_url output_dir rate_limiter max_concurrency).

(** C1.  A crawl returns, and in its run no URL is fetched more than
    once: the URLs handed to the dispatcher are pairwise distinct, they
    are the URLs added to the visited set, each added once; a URL is
    handed to the dispatcher only when it is neither visited nor fetched
    yet; every page is saved right after its URL was added to the visited
    set; and no step of the loop removes a URL from the visited set. *)
Theorem crawl_fetches_each_url_once (fs : Files) (sched : list nat) :
  ∃ st, crawl_website fs sched = Some st
    ∧ NoDup (launches (trace st))
    ∧ NoDup (visits (trace st))
    ∧ launches (trace st) ≡ₚ visits (trace st)
    ∧ visited st = list_to_set (visits (trace st))
    ∧ (∀ pre n u suf, trace st = pre ++ EvLaunch n u :: suf →
         u ∉ visits pre ∧ u ∉ launches pre)
    ∧ (∀ pre u p c suf, trace st = pre ++ EvSave u p c :: suf →
         ∃ pre', pre = pre' ++ [EvVisit u])
    ∧ (∀ st', visited st' ⊆ visited (level_step st')).
Proof.
  destruct (crawl_website_run urlparse urljoin requests_get raise_for_status
    md find_all_href base_url output_dir max_depth rate_limiter
    max_concurrency fs sched) as (k & Hk & _).
  exists (run fs sched k). split; [done|].
  pose proof (crawl_inv_run urlparse urljoin requests_get raise_for_status
    md find_all_href base_url output_dir rate_limiter max_concurrency
    fs sched k) as Hinv.
  pose proof Hinv as (_ & _ & Hvis & Hndv & Hlv & _ & _ & Hsav & _).
  split_and!; try done.
  - by rewrite Hlv.
  - intros pre n u suf Htr. by eapply launch_fresh.
  - intros st'. apply level_step_grows.
Qed.


End RunClaims.

Section RerunClaims.

Context (urlparse : string → ParseResult) (urljoin : string → string → string).
Context (requests_get : nat → string → Exc Response)
        (raise_for_status : Response → Exc unit)
        (md : string → Exc string)
        (find_all_href : string → Exc (list string)).
Context (base_url output_dir : string) (max_depth : Z).

Local Abbreviation crawl_website :=
  (crawl_website urlparse urljoin requests_get raise_for_status md
     find_all_href base_url output_dir max_depth).
Local Abbreviation saved_path := (saved_path urlparse).


End RerunClaims.



(* ===================================================================== *)
(** ** More properties of the code *)
(* ===================================================================== *)

Section SanitizeProperties.

Lemma sanitize_app (a b : string) :
  sanitize_filename (a +:+ b) = sanitize_filename a +:+ sanitize_filename b.
Proof.
  unfold sanitize_filename.
  induction a as [|c a IH]; [done|].
  rewrite append_cons. cbn [Py.map_chars]. by rewrite append_cons, IH.
Qed.

Lemma sanitize_clean (s : string) : clean_name (sanitize_filename s) = true.
Proof.
  unfold clean_name, sanitize_filename.
  induction s as [|c s IH]; [done|]. cbn [Py.map_chars Py.all_chars].
  rewrite IH, andb_true_r.
  by destruct (unsafe_char c) eqn:E; [|rewrite E].
Qed.

Lemma sanitize_fixed (s : string) :
  sanitize_filename s = s ↔ clean_name s = true.
Proof.
  unfold clean_name, sanitize_filename.
  induction s as [|c s IH]; [done|]. cbn [Py.map_chars Py.all_chars].
  rewrite andb_true_iff, <- IH. split.
  - intros H. injection H as Hc Hs. split; [|done].
    destruct (unsafe_char c) eqn:E; [|done].
    subst c. by vm_compute in E.
  - intros [Hc ->]. apply negb_true_iff in Hc. by rewrite Hc.
Qed.

(** X1.  A sanitised name holds none of the nine characters that
    [sanitize_filename] replaces, at any position, and has the length of the
    name. *)
Theorem sanitize_filename_safe (s : string) :
  (∀ i c, String.get i (sanitize_filename s) = Some c →
     c ∉ ["\"; "/"; "*"; "?"; ":"; ascii_of_nat 34; "<"; ">"; "|"]%char)
  ∧ String.length (sanitize_filename s) = String.length s.
Proof.
  split.
  - intros i c Hget Hin%unsafe_char_spec.
    rewrite sanitize_get in Hget.
    destruct (String.get i s) as [c0|]; [|done].
    cbn in Hget. injection Hget as <-.
    destruct (unsafe_char c0) eqn:E; [by vm_compute in Hin | congruence].
  - unfold sanitize_filename.
    induction s as [|c s IH]; [done|]. cbn. by rewrite IH.
Qed.

(** X2.  Sanitising twice is sanitising once; a name is left as it is
    exactly when it holds none of the nine characters; and the sanitised
    form of a concatenation is the concatenation of the sanitised forms. *)
Theorem sanitize_filename_idempotent (a b : string) :
  sanitize_filename (sanitize_filename a) = sanitize_filename a
  ∧ (sanitize_filename a = a ↔ clean_name a = true)
  ∧ sanitize_filename (a +:+ b) = sanitize_filename a +:+ sanitize_filename b.
Proof.
  split_and!.
  - apply sanitize_fixed, sanitize_clean.
  - apply sanitize_fixed.
  - apply sanitize_app.
Qed.

End SanitizeProperties.

Section PathProperties.

Lemma split_nonempty (sep : ascii) (s : string) : Py.split sep s ≠ [].
Proof.
  destruct s as [|c s]; [done|]. cbn [Py.split].
  destruct (Ascii.eqb c sep); [done|]. by destruct (Py.split sep s).
Qed.

Lemma split_app_sep (sep : ascii) (a b : string) :
  Py.split sep (a +:+ String sep b) = Py.split sep a ++ Py.split sep b.
Proof.
  induction a as [|c a IH].
  - change (EmptyString +:+ String sep b) with (String sep b).
    cbn [Py.split]. by rewrite Ascii.eqb_refl.
  - rewrite append_cons. cbn [Py.split]. rewrite IH.
    destruct (Ascii.eqb c sep); [done|].
    pose proof (split_nonempty sep a) as Hne.
    by destruct (Py.split sep a).
Qed.

Lemma path_segments_app (a b : string) :
  path_segments (a +:+ "/" +:+ b) = path_segments a ++ path_segments b.
Proof.
  unfold path_segments.
  change (a +:+ "/" +:+ b) with (a +:+ String "/" b).
  by rewrite split_app_sep, List.filter_app.
Qed.

Lemma split_no_sep (sep : ascii) (s x : string) (i : nat) :
  x ∈ Py.split sep s → String.get i x ≠ Some sep.
Proof.
  revert x i. induction s as [|c s IH]; intros x i Hx.
  - apply list_elem_of_singleton in Hx as ->. by destruct i.
  - cbn [Py.split] in Hx. destruct (Ascii.eqb c sep) eqn:E.
    + apply elem_of_cons in Hx as [->|Hx]; [by destruct i | by apply IH].
    + pose proof (split_nonempty sep s) as Hne.
      destruct (Py.split sep s) as [|h t]; [done|].
      apply elem_of_cons in Hx as [->|Hx].
      * destruct i as [|i]; cbn.
        -- intros [= ->]. by rewrite Ascii.eqb_refl in E.
        -- apply IH. apply elem_of_cons. tauto.
      * apply IH. apply elem_of_cons. tauto.
Qed.

(** X3.  The path components that [save_page] keeps: no component is
    empty and none holds a slash; a slash between two paths joins their
    components, so that doubled, leading and trailing slashes change
    nothing. *)
Theorem path_segments_slashes (a b : string) :
  (∀ x, x ∈ path_segments a →
     Py.truthy x = true ∧ ∀ i, String.get i x ≠ Some "/"%char)
  ∧ path_segments (a +:+ "/" +:+ b) = path_segments a ++ path_segments b
  ∧ path_segments (a +:+ "/") = path_segments a
  ∧ path_segments ("/" +:+ a) = path_segments a
  ∧ path_segments (a +:+ "//" +:+ b) = path_segments (a +:+ "/" +:+ b).
Proof.
  split_and!.
  - intros x Hx. unfold path_segments in Hx.
    apply list_elem_of_In, filter_In in Hx as [Hx Ht].
    split; [done|]. intros i. eapply split_no_sep.
    by apply list_elem_of_In.
  - apply path_segments_app.
  - change (a +:+ "/") with (a +:+ "/" +:+ EmptyString).
    rewrite path_segments_app. apply app_nil_r.
  - change ("/" +:+ a) with (EmptyString +:+ "/" +:+ a).
    by rewrite path_segments_app.
  - change (a +:+ "//" +:+ b) with (a +:+ "/" +:+ (EmptyString +:+ "/" +:+ b)).
    by rewrite !path_segments_app.
Qed.

End PathProperties.

Section SaveProperties.

Context (urlparse : string → ParseResult).

Local Abbreviation save_page := (save_page urlparse).
Local Abbreviation saved_path := (saved_path urlparse).

(** X4.  The file of a page depends on the network location, the
    non-empty path components and the fragment of its URL only: two URLs
    that agree on these (whatever their scheme, parameters and query) are
    saved at the same path, and the page saved last replaces the other. *)
Theorem save_page_same_file (url1 url2 md1 md2 output_dir : string) (fs : Files) :
  netloc (urlparse url1) = netloc (urlparse url2) →
  path_segments (path (urlparse url1)) = path_segments (path (urlparse url2)) →
  fragment (urlparse url1) = fragment (urlparse url2) →
  saved_path url1 output_dir = saved_path url2 output_dir
  ∧ (save_page url2 md2 output_dir (save_page url1 md1 output_dir fs).1).1
    = (save_page url2 md2 output_dir fs).1.
Proof.
  intros Hn Hp Hf.
  assert (saved_path url1 output_dir = saved_path url2 output_dir) as Heq.
  { unfold Notions.saved_path. by rewrite Hn, Hp, Hf. }
  split; [done|].
  rewrite !save_page_eq. cbn [fst]. rewrite Heq. apply insert_insert_eq.
Qed.


End SaveProperties.

(** Two URLs of one page: the scheme and the query differ, and one has
    more slashes. *)
Lemma save_page_same_file_witness :
  netloc (Urllib.urlparse "https://ex.com/a?x=1")
  = netloc (Urllib.urlparse "http://ex.com//a/?y")
  ∧ path_segments (path (Urllib.urlparse "https://ex.com/a?x=1"))
    = path_segments (path (Urllib.urlparse "http://ex.com//a/?y"))
  ∧ fragment (Urllib.urlparse "https://ex.com/a?x=1")
    = fragment (Urllib.urlparse "http://ex.com//a/?y")
  ∧ saved_path Urllib.urlparse "https://ex.com/a?x=1" "out"
    = saved_path Urllib.urlparse "http://ex.com//a/?y" "out".
Proof.
  split_and!; [reflexivity..|].
  apply (save_page_same_file Urllib.urlparse "https://ex.com/a?x=1"
           "http://ex.com//a/?y" "one" "two" "out" ∅); reflexivity.
Defined.

Section UnderOutputDir.

Context (urlparse : string → ParseResult).

Local Abbreviation saved_path := (saved_path urlparse).

Lemma prefix_append (a t : string) : String.prefix a (a +:+ t) = true.
Proof.
  induction a as [|c a IH]; [by destruct t|].
  rewrite append_cons. cbn [String.prefix].
  by destruct (ascii_dec c c).
Qed.

Lemma posix_join_extends (a : string) (p : list string) :
  Forall (λ b, Py.startswith "/" b = false) p →
  ∃ t, Posixpath.join a p = a +:+ t.
Proof.
  intros Hp. revert a. induction Hp as [|b p Hb _ IH]; intros a.
  { exists EmptyString. cbn. induction a as [|c a IHa]; [done|].
    by rewrite append_cons, <- IHa. }
  unfold Posixpath.join. cbn [fold_left]. rewrite Hb.
  change (fold_left _ p ?x) with (Posixpath.join x p).
  destruct (negb (Py.truthy a) || Py.endswith "/" a).
  - destruct (IH (a +:+ b)) as [t ->]. exists (b +:+ t).
    by rewrite append_assoc.
  - destruct (IH (a +:+ "/" +:+ b)) as [t ->]. exists ("/" +:+ b +:+ t).
    by rewrite !append_assoc.
Qed.

Lemma last_sanitized (P : list string) (H : string) :
  List.last (sanitize_filename <$> P) (sanitize_filename H)
  = sanitize_filename (List.last P H).
Proof.
  induction P as [|x P IH]; [done|].
  destruct P as [|y P]; [done|]. exact IH.
Qed.

Lemma sanitized_then_plain (s t : string) :
  Py.startswith "/" t = false →
  Py.startswith "/" (sanitize_filename s +:+ t) = false.
Proof.
  intros Ht. pose proof (sanitize_startswith s) as Hs.
  destruct (sanitize_filename s); [done|]. by rewrite append_cons.
Qed.

Lemma saved_path_prefix (url output_dir : string) :
  String.prefix output_dir (saved_path url output_dir) = true.
Proof.
  unfold Notions.saved_path. cbn zeta. rewrite posix_join_app.
  match goal with
  | |- String.prefix _ (Posixpath.join _ ?p) = true =>
      destruct (posix_join_extends output_dir p)
        as [t ->]; [|apply prefix_append]
  end.
  apply Forall_cons. split; [apply sanitize_startswith|].
  apply Forall_app. split.
  - apply Forall_init, Forall_fmap, Forall_forall.
    intros x _. apply sanitize_startswith.
  - apply Forall_singleton. rewrite last_sanitized.
    destruct (Py.truthy _); by apply sanitized_then_plain.
Qed.

(** X6.  The path of the file of a page begins, as a string, with the
    output directory, and ends with [.md]: no host, path component or
    fragment can make the path absolute.  The components [.] and [..] are
    kept as they are. *)
Theorem save_page_under_output_dir (url output_dir : string) :
  String.prefix output_dir (saved_path url output_dir) = true
  ∧ (∃ s, saved_path url output_dir = s +:+ ".md")
  ∧ sanitize_filename "." = "." ∧ sanitize_filename ".." = "..".
Proof.
  split_and!; [| |done..].
  - apply saved_path_prefix.
  - unfold Notions.saved_path. cbn zeta.
    set (dir := Posixpath.join output_dir _).
    set (base := List.last _ _).
    assert (∀ name, ∃ s, Posixpath.join dir [name +:+ ".md"] = s +:+ ".md")
      as Hjoin.
    { intros name. unfold Posixpath.join. cbn [fold_left].
      destruct (Py.startswith "/" (name +:+ ".md")); [by exists name|].
      destruct (negb (Py.truthy dir) || Py.endswith "/" dir).
      - exists (dir +:+ name). by rewrite append_assoc.
      - exists (dir +:+ "/" +:+ name). by rewrite !append_assoc. }
    destruct (Py.truthy (fragment (urlparse url))).
    + destruct (Hjoin (base +:+ "_" +:+ sanitize_filename (fragment (urlparse url))))
        as [s Hs].
      exists s. rewrite <- Hs. by rewrite !append_assoc.
    + apply Hjoin.
Qed.

End UnderOutputDir.

Section WorkerProperties.

Context (requests_get : nat → string → Exc Response)
        (raise_for_status : Response → Exc unit)
        (md : string → Exc string)
        (find_all_href : string → Exc (list string)).

Local Abbreviation scrape_page :=
  (scrape_page requests_get raise_for_status md find_all_href).
Local Abbreviation fails_with :=
  (fails_with requests_get raise_for_status md find_all_href).

(** X7.  [scrape_page] is all or nothing.  Either the rate limiter, the
    request, the status check, the conversion and the extraction all
    succeed: then the result holds the Markdown and the links of the one
    response, and nothing is printed.  Or one of them fails: then the result
    is the empty page and one line is printed; Markdown without links, or
    links without Markdown, is never returned. *)
Theorem scrape_page_all_or_nothing (n : nat) (url : string)
    (rate_limiter : option LimiterHandle) :
  (∃ response markdown_content links,
     (∀ acquire, rate_limiter = Some acquire → acquire n = inr ())
     ∧ requests_get n url = inr response
     ∧ raise_for_status response = inr ()
     ∧ md (text response) = inr markdown_content
     ∧ find_all_href (text response) = inr links
     ∧ scrape_page n url rate_limiter
       = (mkPageResult url markdown_content links, []))
  ∨ (∃ e, fails_with n url rate_limiter e
          ∧ scrape_page n url rate_limiter
            = (mkPageResult url EmptyString [], [error_line url e])).
Proof.
  destruct (SiteScraper.scrape_body requests_get raise_for_status md
              find_all_href n url rate_limiter) as [e|r] eqn:Hbody.
  { right. exists e. split; [by apply fails_with_body|].
    unfold SiteScraper.scrape_page. by rewrite Hbody. }
  left. unfold SiteScraper.scrape_page. rewrite Hbody.
  unfold SiteScraper.scrape_body in Hbody.
  destruct (match rate_limiter with Some a => a n | None => ret () end)
    as [e0 | []] eqn:Ha; [done|].
  cbn in Hbody.
  destruct (requests_get n url) as [e1 | response] eqn:Hg; [done|].
  cbn in Hbody.
  destruct (raise_for_status response) as [e2 | []] eqn:Hs; [done|].
  cbn in Hbody.
  destruct (md (text response)) as [e3 | m] eqn:Hm; [done|].
  cbn in Hbody.
  destruct (find_all_href (text response)) as [e4 | l] eqn:Hf; [done|].
  cbn in Hbody. injection Hbody as <-.
  exists response, m, l. split_and!; try done.
  intros acquire ->. done.
Qed.

End WorkerProperties.

Section FilterProperties.

Context (urlparse : string → ParseResult) (urljoin : string → string → string).

Local Abbreviation filter_links := (filter_links urlparse urljoin).

(** X8.  [filter_links] works link by link: the result for a
    concatenation is the concatenation of the results, so the order of the
    links is kept and a link listed twice comes out twice; no link is
    added, and no links give no URLs. *)
Theorem filter_links_link_by_link (links1 links2 : list string) (base_url : string) :
  filter_links (links1 ++ links2) base_url
  = filter_links links1 base_url ++ filter_links links2 base_url
  ∧ (length (filter_links links1 base_url) ≤ length links1)%nat
  ∧ filter_links [] base_url = []
  ∧ filter_links (links1 ++ links1) base_url
    = filter_links links1 base_url ++ filter_links links1 base_url.
Proof.
  rewrite !filter_links_spec. split_and!.
  - by rewrite fmap_app, filter_app.
  - etrans; [apply length_filter|]. by rewrite length_fmap.
  - done.
  - by rewrite fmap_app, filter_app.
Qed.

End FilterProperties.

Section TaskTraces.

Lemma launched_tasks_app t1 t2 :
  launched_tasks (t1 ++ t2) = launched_tasks t1 ++ launched_tasks t2.
Proof. apply omap_app. Qed.

Lemma collected_tasks_app t1 t2 :
  collected_tasks (t1 ++ t2) = collected_tasks t1 ++ collected_tasks t2.
Proof. apply omap_app. Qed.

Lemma collect_events_collected done : collected_tasks (collect_events done) = done.
Proof. induction done as [|[n u] done IH]; [done|]. cbn. by f_equal. Qed.

Lemma collect_events_launched done : launched_tasks (collect_events done) = [].
Proof. by induction done. Qed.

Lemma collect_after_launch_snoc (tr : list Event) (e : Event) :
  collect_after_launch tr →
  (∀ n u, e = EvCollect n u → (n, u) ∈ launched_tasks tr) →
  collect_after_launch (tr ++ [e]).
Proof.
  intros Htr He pre n u suf Heq.
  destruct suf as [|x suf _] using rev_ind.
  - apply app_inj_tail in Heq as [Hpre He']. subst pre. by apply He.
  - rewrite app_comm_cons, app_assoc in Heq.
    apply app_inj_tail in Heq as [Heq _]. by eapply Htr.
Qed.

Lemma collect_after_launch_collect (tr : list Event) (done : list Task) :
  collect_after_launch tr →
  (∀ t, t ∈ done → t ∈ launched_tasks tr) →
  collect_after_launch (tr ++ collect_events done).
Proof.
  intros Htr. induction done as [|t done IH] using rev_ind; intros Hdone.
  - by rewrite app_nil_r.
  - unfold collect_events in *. rewrite fmap_app, app_assoc.
    apply collect_after_launch_snoc.
    + apply IH. intros t' Ht'. apply Hdone, elem_of_app. tauto.
    + intros n u [= Hn Hu]. rewrite launched_tasks_app.
      apply elem_of_app. left. apply Hdone, elem_of_app. right.
      destruct t. cbn in *. subst. apply elem_of_cons. tauto.
Qed.

Lemma outstanding_tasks (tr : list Event) :
  outstanding tr
  = Z.of_nat (length (launched_tasks tr)) - Z.of_nat (length (collected_tasks tr)).
Proof.
  unfold outstanding. f_equal; f_equal.
  - induction tr as [|[] tr IH]; cbn; auto.
  - induction tr as [|[] tr IH]; cbn; auto.
Qed.

End TaskTraces.

Section DispatcherProperties.

Context (requests_get : nat → string → Exc Response)
        (raise_for_status : Response → Exc unit)
        (md : string → Exc string)
        (find_all_href : string → Exc (list string)).
Context (rate_limiter : option LimiterHandle) (max_concurrency : Z).

Local Abbreviation ray_get :=
  (ray_get requests_get raise_for_status md find_all_href rate_limiter).
Local Abbreviation launch_loop :=
  (launch_loop requests_get raise_for_status md find_all_href
     rate_limiter max_concurrency).
Local Abbreviation process_urls :=
  (process_urls requests_get raise_for_status md find_all_href
     rate_limiter max_concurrency).

Lemma launch_loop_tasks (urls : list string) (n : nat) (p : Pool) :
  (∀ t, t ∈ pool_tasks p → t ∈ launched_tasks (pool_trace p)) →
  collect_after_launch (pool_trace p) →
  let p' := launch_loop urls n p in
  (∃ new, pool_trace p' = pool_trace p ++ new
          ∧ launched_tasks new = tasks_of n urls
          ∧ collected_tasks new ++ pool_tasks p'
            ≡ₚ pool_tasks p ++ tasks_of n urls)
  ∧ (∀ t, t ∈ pool_tasks p' → t ∈ launched_tasks (pool_trace p'))
  ∧ collect_after_launch (pool_trace p').
Proof.
  revert n p. induction urls as [|url urls IH]; intros n p Hin Hcal.
  { cbn. split_and!; [|done..]. exists []. by rewrite !app_nil_r. }
  cbn [SiteScraper.launch_loop tasks_of].
  assert (∀ t, t ∈ pool_tasks p ++ [(n, url)] →
            t ∈ launched_tasks (pool_trace p ++ [EvLaunch n url])) as Hin1.
  { intros t [Ht|Ht%list_elem_of_singleton]%elem_of_app;
      rewrite launched_tasks_app; apply elem_of_app.
    - left. by apply Hin.
    - right. subst. apply elem_of_cons. tauto. }
  assert (collect_after_launch (pool_trace p ++ [EvLaunch n url])) as Hcal1.
  { by apply collect_after_launch_snoc. }
  destruct (decide _) as [Hfull | Hroom].
  - destruct (next_pick (pool_sched p)) as [pick sched].
    destruct (ray_wait_spec (pool_tasks p ++ [(n, url)]) pick)
      as (t & Hdone & Hperm & Hlen); [by destruct (pool_tasks p)|].
    destruct (ray_wait _ pick) as [done tasks] eqn:Hw.
    cbn [fst snd] in Hdone, Hperm, Hlen. subst done.
    assert (∀ t', t' ∈ t :: tasks →
              t' ∈ launched_tasks (pool_trace p ++ [EvLaunch n url])) as Hin2.
    { intros t' Ht'. apply Hin1. by rewrite Hperm. }
    destruct (IH (S n) (mkPool tasks (pool_results p ++ (ray_get <$> [t])) sched
      ((pool_trace p ++ [EvLaunch n url]) ++ collect_events [t])))
      as ((new & IH1 & IH2 & IH3) & IH4 & IH5).
    { cbn [pool_tasks pool_trace]. intros t' Ht'.
      rewrite launched_tasks_app. apply elem_of_app. left.
      apply Hin2, elem_of_cons. tauto. }
    { cbn [pool_trace]. apply collect_after_launch_collect; [done|].
      intros t' ->%list_elem_of_singleton. apply Hin2, elem_of_cons. tauto. }
    cbn [pool_tasks pool_results pool_sched pool_trace] in *.
    split_and!; [|done..].
    exists ([EvLaunch n url] ++ collect_events [t] ++ new). split_and!.
    + by rewrite IH1, <- !app_assoc.
    + rewrite !launched_tasks_app, collect_events_launched, IH2. done.
    + rewrite !collected_tasks_app, collect_events_collected.
      cbn [collected_tasks omap app].
      rewrite <- app_assoc. cbn [app].
      trans (t :: (tasks ++ tasks_of (S n) urls)).
      { apply Permutation_cons; [done|]. exact IH3. }
      rewrite app_comm_cons, <- Hperm, <- app_assoc. done.
  - destruct (IH (S n) (mkPool (pool_tasks p ++ [(n, url)]) (pool_results p)
      (pool_sched p) (pool_trace p ++ [EvLaunch n url])))
      as ((new & IH1 & IH2 & IH3) & IH4 & IH5); [done..|].
    cbn [pool_tasks pool_results pool_sched pool_trace] in *.
    split_and!; [|done..].
    exists ([EvLaunch n url] ++ new). split_and!.
    + by rewrite IH1, <- !app_assoc.
    + rewrite launched_tasks_app, IH2. done.
    + rewrite collected_tasks_app. cbn [collected_tasks omap app].
      rewrite IH3, <- app_assoc. done.
Qed.

Lemma process_urls_outstanding (urls : list string) (n : nat) (sched : list nat) :
  outstanding (process_urls urls n sched).2 = 0.
Proof.
  destruct (launch_loop_tasks urls n (mkPool [] [] sched []))
    as ((new & H1 & H2 & H3) & _).
  { intros t Ht. by apply elem_of_nil in Ht. }
  { intros pre k u suf Heq. by destruct pre. }
  cbn [pool_tasks pool_trace app] in *.
  unfold SiteScraper.process_urls. cbn [snd].
  rewrite outstanding_tasks, H1, launched_tasks_app, collected_tasks_app,
    collect_events_launched, collect_events_collected, app_nil_r, H2.
  apply Permutation_length in H3. rewrite H3. lia.
Qed.

(** X9.  When [process_urls] returns, nothing is left in flight: the
    workers launched are those of the input URLs, in the order of the
    input; the workers collected are the same ones, each once; every worker
    is collected after it was launched; and the results are those of the
    workers collected.  This holds for every [max_concurrency], also zero
    or negative. *)
Theorem process_urls_drains (urls : list string) (n : nat) (sched : list nat) :
  launched_tasks (process_urls urls n sched).2 = tasks_of n urls
  ∧ collected_tasks (process_urls urls n sched).2 ≡ₚ tasks_of n urls
  ∧ collect_after_launch (process_urls urls n sched).2
  ∧ outstanding (process_urls urls n sched).2 = 0
  ∧ (process_urls urls n sched).1.1
    ≡ₚ ray_get <$> collected_tasks (process_urls urls n sched).2.
Proof.
  destruct (launch_loop_tasks urls n (mkPool [] [] sched []))
    as ((new & H1 & H2 & H3) & H4 & H5).
  { intros t Ht. by apply elem_of_nil in Ht. }
  { intros pre k u suf Heq. by destruct pre. }
  cbn [pool_tasks pool_trace app] in *.
  assert (launched_tasks (process_urls urls n sched).2 = tasks_of n urls) as HL.
  { unfold SiteScraper.process_urls. cbn [snd].
    by rewrite H1, launched_tasks_app, collect_events_launched, app_nil_r. }
  assert (collected_tasks (process_urls urls n sched).2 ≡ₚ tasks_of n urls) as HC.
  { unfold SiteScraper.process_urls. cbn [snd].
    by rewrite H1, collected_tasks_app, collect_events_collected. }
  split_and!; [done..| | |].
  - unfold SiteScraper.process_urls. cbn [snd].
    by apply collect_after_launch_collect.
  - rewrite outstanding_tasks, HL. apply Permutation_length in HC. lia.
  - rewrite HC. apply process_urls_spec.
Qed.

End DispatcherProperties.

Section OneByOne.

Lemma one_by_one_bounded (tasks : list Task) :
  outstanding (one_by_one tasks) = 0 ∧ bounded 1 (one_by_one tasks).
Proof.
  unfold one_by_one.
  induction tasks as [|t tasks [IH1 IH2]] using rev_ind.
  { split; [done | by apply bounded_nil]. }
  rewrite bind_app. cbn [mbind list_bind app].
  change (list_bind _ _ ?f tasks) with (tasks ≫= f).
  change [EvLaunch t.1 t.2; EvCollect t.1 t.2]
    with ([EvLaunch t.1 t.2] ++ [EvCollect t.1 t.2]).
  rewrite app_assoc. split.
  - rewrite !outstanding_app, IH1. by cbv.
  - apply bounded_snoc; [apply bounded_snoc; [done|]|].
    + rewrite outstanding_app, IH1. by cbv.
    + rewrite !outstanding_app, IH1. by cbv.
Qed.

End OneByOne.

Section DispatcherOrder.

Context (requests_get : nat → string → Exc Response)
        (raise_for_status : Response → Exc unit)
        (md : string → Exc string)
        (find_all_href : string → Exc (list string)).
Context (rate_limiter : option LimiterHandle).

Local Abbreviation ray_get :=
  (ray_get requests_get raise_for_status md find_all_href rate_limiter).
Local Abbreviation launch_loop :=
  (launch_loop requests_get raise_for_status md find_all_href rate_limiter).
Local Abbreviation process_urls :=
  (process_urls requests_get raise_for_status md find_all_href rate_limiter).

Lemma launch_loop_sequential (max_concurrency : Z) (urls : list string)
    (n : nat) (p : Pool) :
  max_concurrency ≤ 1 → pool_tasks p = [] →
  launch_loop max_concurrency urls n p
  = mkPool [] (pool_results p ++ (ray_get <$> tasks_of n urls))
      (drop (length urls) (pool_sched p))
      (pool_trace p ++ one_by_one (tasks_of n urls)).
Proof.
  intros Hmax. revert n p. induction urls as [|url urls IH]; intros n p Hp.
  { destruct p. cbn in *. subst. by rewrite !app_nil_r. }
  cbn [SiteScraper.launch_loop tasks_of]. rewrite Hp. cbn [app length].
  rewrite decide_True by lia.
  assert (next_pick (pool_sched p)
          = (default 0%nat (head (pool_sched p)), drop 1 (pool_sched p))) as ->.
  { by destruct (pool_sched p). }
  unfold ray_wait. cbn [length]. rewrite Nat.mod_1_r. cbn [drop take delete list_delete].
  rewrite IH by done. cbn [pool_results pool_sched pool_trace].
  f_equal.
  - by rewrite <- app_assoc.
  - by rewrite drop_drop.
  - by rewrite <- !app_assoc.
Qed.

Lemma launch_loop_no_wait (max_concurrency : Z) (urls : list string)
    (n : nat) (p : Pool) :
  Z.of_nat (length (pool_tasks p) + length urls) < max_concurrency →
  launch_loop max_concurrency urls n p
  = mkPool (pool_tasks p ++ tasks_of n urls) (pool_results p) (pool_sched p)
      (pool_trace p ++ launch_events (tasks_of n urls)).
Proof.
  revert n p. induction urls as [|url urls IH]; intros n p Hlen.
  { destruct p. cbn. by rewrite !app_nil_r. }
  cbn [SiteScraper.launch_loop tasks_of]. cbn [length] in Hlen.
  rewrite decide_False by (rewrite length_app; cbn [length]; lia).
  rewrite IH by (cbn [pool_tasks]; rewrite length_app; cbn [length]; lia).
  cbn [pool_tasks pool_results pool_sched pool_trace].
  f_equal; by rewrite <- app_assoc.
Qed.

(** X10.  With [max_concurrency] at most one (zero and negative numbers
    included) [process_urls] runs the workers one by one, whatever
    [ray.wait] would pick: each worker is collected before the next is
    launched, the results come in the order of the input, and at most one
    worker is outstanding at any time. *)
Theorem process_urls_sequential (max_concurrency : Z) (urls : list string)
    (n : nat) (sched : list nat) :
  max_concurrency ≤ 1 →
  (process_urls max_concurrency urls n sched).1.1 = ray_get <$> tasks_of n urls
  ∧ page_url <$> (process_urls max_concurrency urls n sched).1.1 = urls
  ∧ (process_urls max_concurrency urls n sched).2 = one_by_one (tasks_of n urls)
  ∧ bounded 1 (process_urls max_concurrency urls n sched).2.
Proof.
  intros Hmax. unfold SiteScraper.process_urls.
  rewrite launch_loop_sequential by done.
  cbn [pool_tasks pool_results pool_sched pool_trace fst snd fmap list_fmap
       collect_events app].
  rewrite !app_nil_r. split_and!; [done| |done|apply one_by_one_bounded].
  by rewrite ray_get_urls, tasks_of_urls.
Qed.

(** X11.  With fewer URLs than [max_concurrency], [process_urls] never
    waits: all workers are launched, then all are collected, in the order
    of the input; the results come in that order and [ray.wait] is not
    called. *)
Theorem process_urls_no_wait (max_concurrency : Z) (urls : list string)
    (n : nat) (sched : list nat) :
  Z.of_nat (length urls) < max_concurrency →
  process_urls max_concurrency urls n sched
  = (ray_get <$> tasks_of n urls, sched,
     launch_events (tasks_of n urls) ++ collect_events (tasks_of n urls))
  ∧ page_url <$> (process_urls max_concurrency urls n sched).1.1 = urls.
Proof.
  intros Hlen. unfold SiteScraper.process_urls.
  rewrite launch_loop_no_wait by (cbn [pool_tasks length]; lia).
  cbn [pool_tasks pool_results pool_sched pool_trace fst snd app].
  split; [done|]. by rewrite ray_get_urls, tasks_of_urls.
Qed.

End DispatcherOrder.

(** Three URLs of the example site, with [max_concurrency] zero. *)
Lemma process_urls_sequential_witness :
  0 ≤ 1
  ∧ page_url <$>
      (process_urls Example.requests_get Example.raise_for_status Example.md
         Example.find_all_href None 0
         ["https://ex.com/a?x=1"; "https://ex.com/a?x=2"; "https://ex.com/docs/"]
         0 [1%nat; 1%nat]).1.1
    = ["https://ex.com/a?x=1"; "https://ex.com/a?x=2"; "https://ex.com/docs/"].
Proof.
  split; [lia|].
  apply (process_urls_sequential Example.requests_get
           Example.raise_for_status Example.md Example.find_all_href None 0
           ["https://ex.com/a?x=1"; "https://ex.com/a?x=2"; "https://ex.com/docs/"]
           0 [1%nat; 1%nat]).
  lia.
Defined.

(** Three URLs of the example site, with four workers allowed. *)
Lemma process_urls_no_wait_witness :
  Z.of_nat (length ["https://ex.com/a?x=1"; "https://ex.com/a?x=2";
                    "https://ex.com/docs/"]) < 4
  ∧ page_url <$>
      (process_urls Example.requests_get Example.raise_for_status Example.md
         Example.find_all_href None 4
         ["https://ex.com/a?x=1"; "https://ex.com/a?x=2"; "https://ex.com/docs/"]
         0 [1%nat; 1%nat]).1.1
    = ["https://ex.com/a?x=1"; "https://ex.com/a?x=2"; "https://ex.com/docs/"].
Proof.
  split; [cbn; lia|].
  apply (process_urls_no_wait Example.requests_get
           Example.raise_for_status Example.md Example.find_all_href None 4
           ["https://ex.com/a?x=1"; "https://ex.com/a?x=2"; "https://ex.com/docs/"]
           0 [1%nat; 1%nat]).
  cbn. lia.
Defined.

Section RateLimiterProperties.

Import RateLimiter.

(** X12.  [acquire] keeps the delay it was made with.  When it sleeps, it
    sleeps for a positive time, [delay - (now - last_request)], so that
    [time.sleep] never gets a negative argument, and for no more than
    [delay] when the clock has not gone back.  The stamp it leaves is not
    earlier than the arrival of the call. *)
Theorem acquire_sleep_bounds (self : t) (now lag : Q) :
  delay (acquire self now lag).1 = delay self
  ∧ (∀ s, (acquire self now lag).2 = Some s →
       (0 < s)%Q ∧ (s == delay self - (now - last_request self))%Q
       ∧ ((last_request self <= now)%Q → (s <= delay self)%Q))
  ∧ ((0 <= lag)%Q → (now <= last_request (acquire self now lag).1)%Q).
Proof.
  unfold acquire.
  destruct (Qeq_bool (last_request self) 0) eqn:E.
  { cbn. split_and!; [done|done|]. intros _. lra. }
  destruct (Qle_bool (delay self) (now - last_request self)) eqn:El; cbn.
  - split_and!; [done|done|]. intros Hlag. lra.
  - assert (¬ (delay self <= now - last_request self)%Q) as Hlt.
    { rewrite <- Qle_bool_iff. congruence. }
    split_and!; [done| |].
    + intros s [= <-]. split_and!; [lra | reflexivity | intros; lra].
    + intros Hlag. lra.
Qed.

Lemma serve_unhurried (self : t) (calls : list (Q * Q)) :
  unhurried self calls → Forall (λ g, g.2 = None) (serve self calls).
Proof.
  revert self. induction calls as [|[now lag] calls IH]; intros self Hun.
  { apply Forall_nil_2. }
  destruct Hun as [Hfirst Hrest]. cbn [serve].
  destruct (acquire self now lag) as [self' slept] eqn:Ea.
  cbn [fst] in Hrest. apply Forall_cons. split; [|by apply IH].
  cbn [snd]. unfold acquire in Ea.
  destruct (Qeq_bool (last_request self) 0) eqn:E; [by injection Ea as _ <-|].
  destruct Hfirst as [H0|Hlate].
  { apply Qeq_bool_iff in H0. congruence. }
  assert (Qle_bool (delay self) (now - last_request self) = true) as El.
  { apply Qle_bool_iff. lra. }
  rewrite El in Ea. cbn in Ea. by injection Ea as _ <-.
Qed.

(** X13.  Callers that never come early are never delayed: when every
    call arrives at least [delay] after the stamp of the grant before it,
    no call sleeps. *)
Theorem rate_limiter_no_needless_sleep (d : Q) (calls : list (Q * Q)) :
  unhurried (init d) calls →
  Forall (λ g, g.2 = None) (serve (init d) calls).
Proof. apply serve_unhurried. Qed.

Lemma serve_nonpositive (self : t) (calls : list (Q * Q)) :
  (delay self <= 0)%Q → clock_ok self calls →
  Forall (λ g, g.2 = None) (serve self calls).
Proof.
  intros Hd. revert self Hd.
  induction calls as [|[now lag] calls IH]; intros self Hd Hok.
  { apply Forall_nil_2. }
  destruct Hok as (Hnow & _ & _ & Hok).
  destruct (acquire_sleep_bounds self now lag) as (Hdelay & Hsleep & _).
  cbn [serve]. destruct (acquire self now lag) as [self' slept] eqn:Ea.
  cbn [fst snd] in *. apply Forall_cons. split.
  - cbn [snd]. destruct slept as [s|]; [|done].
    destruct (Hsleep s eq_refl) as (Hpos & _ & Hle). specialize (Hle Hnow). lra.
  - apply IH; [by rewrite Hdelay | done].
Qed.

(** X14.  A limiter made with a delay that is zero or negative never
    sleeps, as long as the clock does not go back. *)
Theorem rate_limiter_nonpositive_delay (d : Q) (calls : list (Q * Q)) :
  (d <= 0)%Q → clock_ok (init d) calls →
  Forall (λ g, g.2 = None) (serve (init d) calls).
Proof. intros Hd. by apply serve_nonpositive. Qed.

End RateLimiterProperties.

(** Calls at 10, 12 and 15 seconds on a limiter with a delay of two
    seconds. *)
Lemma rate_limiter_no_needless_sleep_witness :
  unhurried (RateLimiter.init 2) [(10, 0); (12, 1 # 2); (15, 0)]%Q
  ∧ Forall (λ g : Q * option Q, g.2 = None)
      (RateLimiter.serve (RateLimiter.init 2) [(10, 0); (12, 1 # 2); (15, 0)]%Q).
Proof.
  assert (unhurried (RateLimiter.init 2) [(10, 0); (12, 1 # 2); (15, 0)]%Q)
    as Hun.
  { cbn. split_and!; [left; reflexivity | right; vm_compute; discriminate
                     | right; vm_compute; discriminate | exact I]. }
  split; [exact Hun|].
  apply (rate_limiter_no_needless_sleep 2 _ Hun).
Defined.

(** Calls one second apart on a limiter with a delay of minus one. *)
Lemma rate_limiter_nonpositive_delay_witness :
  (-1 <= 0)%Q
  ∧ RateLimiter.clock_ok (RateLimiter.init (-1)) [(10, 0); (11, 0)]%Q
  ∧ Forall (λ g : Q * option Q, g.2 = None)
      (RateLimiter.serve (RateLimiter.init (-1)) [(10, 0); (11, 0)]%Q).
Proof.
  assert (-1 <= 0)%Q as Hd by (vm_compute; discriminate).
  assert (RateLimiter.clock_ok (RateLimiter.init (-1)) [(10, 0); (11, 0)]%Q)
    as Hok.
  { vm_compute. repeat split; discriminate. }
  split_and!; [exact Hd | exact Hok |].
  apply (rate_limiter_nonpositive_delay (-1) _ Hd Hok).
Defined.

(* ===================================================================== *)
(** ** The crawl as a whole *)
(* ===================================================================== *)

Section TraceBounds.

Lemma bounded_no_launches (N : Z) (tr : list Event) :
  0 ≤ N → launches tr = [] → bounded N tr.
Proof.
  intros HN Hl pre suf ->. rewrite launches_app in Hl.
  apply app_eq_nil in Hl as [Hl _]. unfold outstanding. rewrite Hl. simpl. lia.
Qed.

Lemma bounded_app (N : Z) (t1 t2 : list Event) :
  bounded N t1 → outstanding t1 = 0 → bounded N t2 → bounded N (t1 ++ t2).
Proof.
  intros H1 H0 H2 pre suf Heq.
  apply app_eq_inv in Heq as [(k & -> & ->)|(k & -> & ->)].
  - by eapply H1.
  - rewrite outstanding_app, H0. by eapply H2.
Qed.

Lemma outstanding_no_tasks (tr : list Event) :
  launches tr = [] → collects tr = [] → outstanding tr = 0.
Proof. unfold outstanding. by intros -> ->. Qed.

Lemma result_events_collects {urlparse : string → ParseResult}
    (output_dir : string) (results : list PageResult) :
  collects (results ≫= result_events urlparse output_dir) = [].
Proof. by induction results. Qed.

End TraceBounds.

Section CrawlProperties.

Context (urlparse : string → ParseResult) (urljoin : string → string → string).
Context (requests_get : nat → string → Exc Response)
        (raise_for_status : Response → Exc unit)
        (md : string → Exc string)
        (find_all_href : string → Exc (list string)).
Context (base_url output_dir : string) (max_depth : Z)
        (rate_limiter : option LimiterHandle) (max_concurrency : Z).

Local Abbreviation ray_get :=
  (ray_get requests_get raise_for_status md find_all_href rate_limiter).
Local Abbreviation result_events := (result_events urlparse output_dir).
Local Abbreviation saved_path := (saved_path urlparse).
Local Abbreviation level_results :=
  (level_results requests_get raise_for_status md find_all_href
     rate_limiter max_concurrency).
Local Abbreviation level_dispatched :=
  (level_dispatched requests_get raise_for_status md find_all_href
     rate_limiter max_concurrency).
Local Abbreviation level_step :=
  (level_step urlparse urljoin requests_get raise_for_status md find_all_href
     base_url output_dir rate_limiter max_concurrency).
Local Abbreviation crawl_website :=
  (crawl_website urlparse urljoin requests_get raise_for_status md find_all_href
     base_url output_dir max_depth rate_limiter max_concurrency).
Local Abbreviation run :=
  (run urlparse urljoin requests_get raise_for_status md find_all_href
     base_url output_dir rate_limiter max_concurrency).
Local Abbreviation frontiers :=
  (frontiers urlparse urljoin requests_get raise_for_status md find_all_href
     base_url output_dir rate_limiter max_concurrency).
Local Abbreviation continues := (continues max_depth).
Local Abbreviation crawl_init := (crawl_init base_url).

Local Abbreviation inv_run :=
  (crawl_inv_run urlparse urljoin requests_get raise_for_status md
     find_all_href base_url output_dir rate_limiter max_concurrency).
Local Abbreviation step_spec :=
  (level_step_spec urlparse urljoin requests_get raise_for_status md
     find_all_href base_url output_dir rate_limiter max_concurrency).

(** A level, in terms of the run. *)
Lemma run_step_spec (fs : Files) (sched : list nat) (k : nat) :
  let st := run fs sched k in
  page_url <$> level_results st ≡ₚ current_level st
  ∧ launches (level_dispatched st) = current_level st
  ∧ visits (level_dispatched st) = []
  ∧ saves (level_dispatched st) = []
  ∧ visited (run fs sched (S k)) = visited st ∪ list_to_set (current_level st)
  ∧ trace (run fs sched (S k))
    = trace st ++ [EvLevel (Z.of_nat k) (length (current_level st))]
        ++ level_dispatched st ++ (level_results st ≫= result_events)
  ∧ files (run fs sched (S k))
    = write_all (saves (level_results st ≫= result_events)) (files st).
Proof.
  intros st. destruct (inv_run fs sched k) as (Hnd & Hnew & _).
  destruct (step_spec (run fs sched k) Hnd Hnew)
    as (H1 & H2 & H3 & H4 & H5 & H6 & H7 & _).
  rewrite (run_depth urlparse urljoin requests_get raise_for_status md
    find_all_href base_url output_dir rate_limiter max_concurrency) in H6.
  by split_and!.
Qed.

(** X15.  With a negative [max_depth] the loop is not entered: nothing is
    fetched, no file is written and the seed is not marked as visited. *)
Theorem crawl_negative_depth (fs : Files) (sched : list nat) :
  max_depth < 0 → crawl_website fs sched = Some (crawl_init fs sched).
Proof.
  intros Hneg. unfold SiteScraper.crawl_website.
  replace (Z.to_nat (max_depth + 1)) with 0%nat by lia.
  cbn [SiteScraper.crawl_loop]. unfold SiteScraper.continues.
  cbn [depth SiteScraper.crawl_init current_level].
  rewrite (bool_decide_eq_false_2 (0 ≤ max_depth)) by lia.
  by rewrite andb_false_r.
Qed.

(** The first level holds the seed alone. *)
Lemma first_level (fs : Files) (sched : list nat) :
  level_results (crawl_init fs sched) = [ray_get (0%nat, base_url)]
  ∧ launches (level_dispatched (crawl_init fs sched)) = [base_url].
Proof.
  assert (urls_to_scrape (crawl_init fs sched) = [base_url]) as Hu.
  { apply urls_to_scrape_all. intros u _. cbn. apply not_elem_of_empty. }
  destruct (process_urls_spec requests_get raise_for_status md find_all_href
    rate_limiter max_concurrency [base_url] 0 sched) as (Hperm & HL & _).
  unfold SiteScraper.level_results, SiteScraper.level_dispatched.
  rewrite Hu. cbn [SiteScraper.crawl_init current_level launched schedule].
  split; [by apply Permutation_singleton_r in Hperm | done].
Qed.

Lemma first_level_trace (fs : Files) (sched : list nat) :
  launches (trace (run fs sched 1)) = [base_url]
  ∧ visits (trace (run fs sched 1)) = [base_url]
  ∧ saves (trace (run fs sched 1))
    = [(base_url, saved_path base_url output_dir,
        spec_file_content base_url (page_markdown (ray_get (0%nat, base_url))))].
Proof.
  destruct (run_step_spec fs sched 0) as (_ & HL & HV & HS & _ & Htr & _).
  cbn zeta in *. change (run fs sched 0) with (crawl_init fs sched) in *.
  destruct (first_level fs sched) as [Hres _].
  rewrite Htr, Hres.
  rewrite !launches_app, !visits_app, !saves_app, HL, HV, HS.
  cbn. by rewrite ray_get_url.
Qed.


Lemma frontiers_S (fs : Files) (sched : list nat) (k : nat) :
  frontiers fs sched (S k)
  = frontiers fs sched k ++ current_level (run fs sched k).
Proof.
  unfold frontiers. rewrite seq_S, bind_app. cbn. by rewrite app_nil_r.
Qed.

Lemma launches_frontiers (fs : Files) (sched : list nat) (k : nat) :
  launches (trace (run fs sched k)) = frontiers fs sched k.
Proof.
  induction k as [|k IH]; [done|].
  destruct (run_step_spec fs sched k) as (_ & HL & _ & _ & _ & Htr & _).
  cbn zeta in *. rewrite Htr, frontiers_S, !launches_app, HL, IH.
  by rewrite result_events_launches, app_nil_r.
Qed.

(** X17.  The crawl goes level by level: the URLs are fetched in the
    order of the frontiers, each frontier in its own order; and in each
    level all URLs of the frontier are fetched before the first page of
    the level is processed. *)
Theorem crawl_level_by_level (fs : Files) (sched : list nat) (k : nat) :
  launches (trace (run fs sched k)) = frontiers fs sched k
  ∧ visits (trace (run fs sched k)) ≡ₚ frontiers fs sched k
  ∧ ∃ dispatched processed,
      trace (run fs sched (S k))
      = trace (run fs sched k)
          ++ [EvLevel (Z.of_nat k) (length (current_level (run fs sched k)))]
          ++ dispatched ++ processed
      ∧ launches dispatched = current_level (run fs sched k)
      ∧ visits dispatched = [] ∧ saves dispatched = []
      ∧ launches processed = []
      ∧ visits processed ≡ₚ current_level (run fs sched k).
Proof.
  split_and!.
  - apply launches_frontiers.
  - destruct (inv_run fs sched k) as (_ & _ & _ & _ & Hperm & _).
    by rewrite <- launches_frontiers, Hperm.
  - destruct (run_step_spec fs sched k) as (HP & HL & HV & HS & _ & Htr & _).
    cbn zeta in *.
    exists (level_dispatched (run fs sched k)),
      (level_results (run fs sched k) ≫= result_events).
    split_and!; [done..| |].
    + apply result_events_launches.
    + by rewrite result_events_visits.
Qed.

(** X18.  The frontier of every level is free of duplicates and of URLs
    already visited, so that the filter on [visited] before the dispatch
    drops nothing; the level adds its whole frontier to [visited], one new
    URL for each of its elements. *)
Theorem frontier_never_filtered (fs : Files) (sched : list nat) (k : nat) :
  NoDup (current_level (run fs sched k))
  ∧ (∀ u, u ∈ current_level (run fs sched k) → u ∉ visited (run fs sched k))
  ∧ urls_to_scrape (run fs sched k) = current_level (run fs sched k)
  ∧ visited (run fs sched (S k))
    = visited (run fs sched k) ∪ list_to_set (current_level (run fs sched k))
  ∧ size (visited (run fs sched (S k)))
    = (size (visited (run fs sched k))
       + length (current_level (run fs sched k)))%nat.
Proof.
  destruct (inv_run fs sched k) as (Hnd & Hnew & _).
  destruct (run_step_spec fs sched k) as (_ & _ & _ & _ & Hvis & _).
  cbn zeta in *.
  split_and!; [done | done | by apply urls_to_scrape_all | done |].
  rewrite Hvis, size_union.
  - by rewrite size_list_to_set.
  - intros u Hu1 Hu2%elem_of_list_to_set. by apply (Hnew u).
Qed.

(** X19.  When the crawl returns, the number of requests made, the number
    of pages processed and the number of files written (counting a file
    once for each time it is written) all equal the number of URLs in
    [visited]. *)
Theorem crawl_counts (fs : Files) (sched : list nat) :
  ∃ st, crawl_website fs sched = Some st
    ∧ length (launches (trace st)) = size (visited st)
    ∧ length (visits (trace st)) = size (visited st)
    ∧ length (saves (trace st)) = size (visited st).
Proof.
  destruct (crawl_website_run urlparse urljoin requests_get raise_for_status md
    find_all_href base_url output_dir max_depth rate_limiter max_concurrency
    fs sched) as (k & Hk & _).
  exists (run fs sched k). split; [done|].
  destruct (inv_run fs sched k) as (_ & _ & Hvis & Hnd & Hperm & Hsav & _).
  assert (length (visits (trace (run fs sched k)))
          = size (visited (run fs sched k))) as Hlen.
  { by rewrite Hvis, size_list_to_set. }
  split_and!; [|done|].
  - by rewrite Hperm.
  - by rewrite <- Hlen, <- Hsav, !length_fmap.
Qed.

Lemma run_bounded (fs : Files) (sched : list nat) (k : nat) :
  1 ≤ max_concurrency →
  bounded max_concurrency (trace (run fs sched k))
  ∧ outstanding (trace (run fs sched k)) = 0.
Proof.
  intros Hmc. induction k as [|k [IHb IH0]].
  { split; [apply bounded_nil; lia | done]. }
  destruct (run_step_spec fs sched k) as (_ & _ & _ & _ & _ & Htr & _).
  cbn zeta in *. rewrite Htr.
  assert (outstanding (level_dispatched (run fs sched k)) = 0) as Hd0
    by apply process_urls_outstanding.
  assert (bounded max_concurrency (level_dispatched (run fs sched k))) as Hdb.
  { by apply process_urls_spec. }
  assert (outstanding (level_results (run fs sched k) ≫= result_events) = 0)
    as Hr0.
  { apply outstanding_no_tasks;
      [apply result_events_launches | apply result_events_collects]. }
  split.
  - apply bounded_app; [done..|].
    apply (bounded_app _ [_]); [by apply bounded_no_launches; [lia|] | done |].
    apply bounded_app; [done..|].
    apply bounded_no_launches; [lia | apply result_events_launches].
  - rewrite !outstanding_app, IH0, Hd0, Hr0. done.
Qed.

(** X20.  With [max_concurrency] at least one, at no moment of the whole
    crawl are more than [max_concurrency] workers in flight, and none is
    in flight when it returns. *)
Theorem crawl_concurrency_bound (fs : Files) (sched : list nat) :
  1 ≤ max_concurrency →
  ∃ st, crawl_website fs sched = Some st
    ∧ bounded max_concurrency (trace st)
    ∧ outstanding (trace st) = 0.
Proof.
  intros Hmc.
  destruct (crawl_website_run urlparse urljoin requests_get raise_for_status md
    find_all_href base_url output_dir max_depth rate_limiter max_concurrency
    fs sched) as (k & Hk & _).
  exists (run fs sched k). split; [done|]. by apply run_bounded.
Qed.

End CrawlProperties.

(** With [max_depth = -1] on the example site. *)
Lemma crawl_negative_depth_witness :
  -1 < 0 ∧ Example.crawl (-1) 4 [] = Some (crawl_init Example.seed ∅ []).
Proof.
  split; [lia|].
  apply (crawl_negative_depth Urllib.urlparse Urllib.urljoin
    Example.requests_get Example.raise_for_status Example.md
    Example.find_all_href Example.seed "out" (-1) None 4 ∅ []). lia.
Defined.


(** The example site at depth one, two workers at a time. *)
Lemma crawl_concurrency_bound_witness :
  1 ≤ 2
  ∧ ∃ st, Example.crawl 1 2 [1; 0]%nat = Some st
      ∧ bounded 2 (trace st) ∧ outstanding (trace st) = 0.
Proof.
  assert (1 ≤ 2) as Hmc by lia.
  split; [exact Hmc|].
  exact (crawl_concurrency_bound Urllib.urlparse Urllib.urljoin
    Example.requests_get Example.raise_for_status Example.md
    Example.find_all_href Example.seed "out" 1 None 2 ∅ [1; 0]%nat Hmc).
Defined.

(* ===================================================================== *)
(** ** The output tree of a crawl *)
(* ===================================================================== *)

Section OutputTree.

Lemma write_all_other (w : list (string * string * string)) (fs : Files)
    (p : string) :
  p ∉ w.*1.*2 → write_all w fs !! p = fs !! p.
Proof.
  revert fs. induction w as [|x w IH]; intros fs Hp; [done|].
  cbn. change (fold_left _ w ?m) with (write_all w m).
  rewrite !fmap_cons, not_elem_of_cons in Hp. destruct Hp as [Hne Hp].
  rewrite IH by done. by apply lookup_insert_ne.
Qed.

(** A path that is written holds what the last write to it put there. *)
Lemma write_all_written (w : list (string * string * string)) (fs : Files)
    (p : string) :
  p ∈ w.*1.*2 → ∃ x, x ∈ w ∧ x.1.2 = p ∧ write_all w fs !! p = Some x.2.
Proof.
  induction w as [|y w IH] using rev_ind; intros Hp.
  { by apply elem_of_nil in Hp. }
  rewrite write_all_app. cbn.
  destruct (decide (y.1.2 = p)) as [Heq|Hne].
  - exists y. split_and!; [apply elem_of_app; right; apply elem_of_cons; tauto
                          | done |].
    by rewrite Heq, lookup_insert_eq.
  - rewrite !fmap_app, elem_of_app in Hp. destruct Hp as [Hp|Hp].
    + destruct (IH Hp) as (x & Hx & Hxp & Hl). exists x.
      split_and!; [apply elem_of_app; tauto | done |].
      by rewrite lookup_insert_ne.
    + cbn in Hp. apply list_elem_of_singleton in Hp. by subst.
Qed.

End OutputTree.

Section CrawlFiles.

Context (urlparse : string → ParseResult) (urljoin : string → string → string).
Context (requests_get : nat → string → Exc Response)
        (raise_for_status : Response → Exc unit)
        (md : string → Exc string)
        (find_all_href : string → Exc (list string)).
Context (base_url output_dir : string) (max_depth : Z)
        (rate_limiter : option LimiterHandle) (max_concurrency : Z).

Local Abbreviation ray_get :=
  (ray_get requests_get raise_for_status md find_all_href rate_limiter).
Local Abbreviation fails_with :=
  (fails_with requests_get raise_for_status md find_all_href).
Local Abbreviation result_events := (result_events urlparse output_dir).
Local Abbreviation saved_path := (saved_path urlparse).
Local Abbreviation filter_links := (filter_links urlparse urljoin).
Local Abbreviation level_results :=
  (level_results requests_get raise_for_status md find_all_href
     rate_limiter max_concurrency).
Local Abbreviation level_dispatched :=
  (level_dispatched requests_get raise_for_status md find_all_href
     rate_limiter max_concurrency).
Local Abbreviation level_step :=
  (level_step urlparse urljoin requests_get raise_for_status md find_all_href
     base_url output_dir rate_limiter max_concurrency).
Local Abbreviation crawl_website :=
  (crawl_website urlparse urljoin requests_get raise_for_status md find_all_href
     base_url output_dir max_depth rate_limiter max_concurrency).
Local Abbreviation run :=
  (run urlparse urljoin requests_get raise_for_status md find_all_href
     base_url output_dir rate_limiter max_concurrency).
Local Abbreviation continues := (continues max_depth).
Local Abbreviation crawl_init := (crawl_init base_url).

Local Abbreviation inv_run :=
  (crawl_inv_run urlparse urljoin requests_get raise_for_status md
     find_all_href base_url output_dir rate_limiter max_concurrency).
Local Abbreviation website_run :=
  (crawl_website_run urlparse urljoin requests_get raise_for_status md
     find_all_href base_url output_dir max_depth rate_limiter max_concurrency).

(** Every write of a run puts a page under the path of its URL. *)
Lemma run_saves_shape (fs : Files) (sched : list nat) (k : nat) :
  Forall (λ w, w.1.2 = saved_path w.1.1 output_dir
               ∧ ∃ m, w.2 = spec_file_content w.1.1 m)
    (saves (trace (run fs sched k))).
Proof.
  induction k as [|k IH]; [by apply Forall_nil|].
  destruct (run_step_spec urlparse urljoin requests_get raise_for_status md
    find_all_href base_url output_dir rate_limiter max_concurrency fs sched k)
    as (_ & _ & _ & HS & _ & Htr & _).
  cbn zeta in *. rewrite Htr, !saves_app, HS, result_events_saves.
  apply Forall_app. split; [done|]. cbn [saves omap app].
  apply Forall_fmap, Forall_forall. intros r _. cbn. eauto.
Qed.

Lemma run_saves_visited (fs : Files) (sched : list nat) (k : nat)
    (w : string * string * string) :
  w ∈ saves (trace (run fs sched k)) ↔
  w ∈ saves (trace (run fs sched k)) ∧ w.1.1 ∈ visited (run fs sched k).
Proof.
  split; [|tauto]. intros Hw. split; [done|].
  destruct (inv_run fs sched k) as (_ & _ & -> & _ & _ & <- & _).
  apply elem_of_list_to_set. rewrite <- list_fmap_compose.
  by apply (list_elem_of_fmap_2 (fst ∘ fst)).
Qed.

Lemma visited_saved (fs : Files) (sched : list nat) (k : nat) (u : string) :
  u ∈ visited (run fs sched k) →
  saved_path u output_dir ∈ written_paths (trace (run fs sched k)).
Proof.
  destruct (inv_run fs sched k) as (_ & _ & -> & _ & _ & <- & _).
  rewrite elem_of_list_to_set. unfold written_paths.
  rewrite <- !list_fmap_compose.
  intros (w & -> & Hw)%list_elem_of_fmap.
  pose proof (run_saves_shape fs sched k) as Hshape.
  rewrite Forall_forall in Hshape. destruct (Hshape w Hw) as [Hpath _].
  change ((fst ∘ fst) w) with w.1.1. rewrite <- Hpath.
  by apply (list_elem_of_fmap_2 (snd ∘ fst)).
Qed.




End CrawlFiles.


(* ===================================================================== *)
(** ** The command line *)
(* ===================================================================== *)

Section MainProperties.

Context (urlparse : string → ParseResult) (urljoin : string → string → string).
Context (requests_get : nat → string → Exc Response)
        (raise_for_status : Response → Exc unit)
        (md : string → Exc string)
        (find_all_href : string → Exc (list string)).
Context (RateLimiter_remote : Q → LimiterHandle).

Local Abbreviation main :=
  (main urlparse urljoin requests_get raise_for_status md find_all_href
     RateLimiter_remote).


End MainProperties.

